(** * Dapr application discovery: mDNS client and application providers

    A shallow embedding of
      - [src/services/mdnsClient.ts]  (class [MulticastDnsMdnsClient]),
      - the application providers ([MdnsBasedDaprApplicationProvider],
        [ProcessBasedDaprApplicationProvider]) and the second copy of the
        mDNS client that lives next to them,
    together with the properties the design document states about them.

    Conventions of the embedding.
      - JavaScript strings are [string]; a character is a code unit below 256.
      - A JavaScript object used as a dictionary ([knownServices]) is a
        [gmap string _] holding its own entries; a lookup [obj[key]] also
        sees the properties a plain object inherits from [Object.prototype]
        ([Js.inherited]).
      - A number is an exact integer up to 2^53 in magnitude, a rounded
        one beyond ([Text.Rounded]), or [NaN].
      - [forEach] over an array with a mutating callback is a [fold_left]
        that threads the mutated state.
      - Event emitters are modelled by the trace of the events they fired. *)

From Stdlib Require Import ZArith String Ascii List Bool Lia.
From stdpp Require Import gmap strings list fin_maps.
Import ListNotations.

Local Open Scope string_scope.
Local Open Scope Z_scope.
Local Open Scope list_scope.

(** ** JavaScript truthiness of the values the code tests *)

Module Js.

(** [if (s)] on a string: every string but the empty one is truthy. *)
Definition truthyString (s : string) : bool :=
  match s with
  | EmptyString => false
  | String _ _ => true
  end.

(** [if (n)] on an integral number: every number but zero is truthy. *)
Definition truthyNumber (n : Z) : bool := negb (n =? 0).

(** [a === b] where [b : string | undefined]. *)
Definition strictEq (a : string) (b : option string) : bool :=
  match b with
  | Some b' => String.eqb a b'
  | None => false
  end.

(** The property names a plain object [{}] inherits from
    [Object.prototype] (Annex B names included, as in Node). For each of
    them [obj[key]] is a function, or the prototype itself for [__proto__],
    hence truthy, although [obj] has no entry of its own; [delete obj[key]]
    leaves it there. *)
Definition inheritedKeys : list string :=
  ["constructor"; "hasOwnProperty"; "isPrototypeOf"; "propertyIsEnumerable";
   "toLocaleString"; "toString"; "valueOf"; "__proto__";
   "__defineGetter__"; "__defineSetter__"; "__lookupGetter__"; "__lookupSetter__"].

Definition inherited (key : string) : bool :=
  existsb (String.eqb key) inheritedKeys.

End Js.

(** ** Resource records as delivered by the multicast-dns library *)

Module Dns.

(** The payload of an answer; the constructor is the record's [type] tag. *)
Inductive AnswerData : Type :=
| PTR (data : string)
| SRV (target : string) (port : Z)
| TXT (data : list string)
| A (data : string)
| Other.

Record MdnsAnswer : Type := {
  name : string;
  ttl : Z;
  data : AnswerData
}.

Record MdnsPacket : Type := { answers : list MdnsAnswer }.

End Dns.

(** ** The mDNS client *)

Module Client.

Import Dns.

Record MdnsService : Type := {
  address : string;
  fqdn : string;
  name : string;
  port : Z;
  text : list string
}.

(** What the two emitters fired. [ServiceDownInherited key] is
    [onServiceDown] fired with the value a plain object inherits under
    [key], which is not a service record. *)
Inductive Event : Type :=
| ServiceUp (service : MdnsService)
| ServiceDown (service : MdnsService)
| ServiceDownInherited (key : string).

Definition isAddressAnswer (answer : MdnsAnswer) : bool :=
  match data answer with A _ => true | _ => false end.

Definition isPointerAnswer (answer : MdnsAnswer) : bool :=
  match data answer with PTR _ => true | _ => false end.

Definition isServerAnswer (answer : MdnsAnswer) : bool :=
  match data answer with SRV _ _ => true | _ => false end.

Definition isTextAnswer (answer : MdnsAnswer) : bool :=
  match data answer with TXT _ => true | _ => false end.

(** [{ address: '', fqdn: '', name, port: 0, text: [] }] *)
Definition blank (name : string) : MdnsService :=
  {| address := ""; fqdn := ""; name := name; port := 0; text := [] |}.

(** First [forEach] of [onResponse]: stage the up and the down candidates. *)
Definition stageStep (acc : list MdnsService * list string) (answer : MdnsAnswer)
  : list MdnsService * list string :=
  match data answer with
  | PTR name =>
      if Js.truthyNumber (ttl answer)
      then (fst acc ++ [blank name], snd acc)
      else (fst acc, snd acc ++ [name])
  | _ => acc
  end.

Definition stage (type : option string) (packet : MdnsPacket)
  : list MdnsService * list string :=
  fold_left stageStep
    (List.filter isPointerAnswer
       (List.filter (fun answer => Js.strictEq (Dns.name answer) type)
          (answers packet)))
    ([], []).

(** The three scans that fill in one up candidate. *)
Definition setServer (service : MdnsService) (answer : MdnsAnswer) : MdnsService :=
  match data answer with
  | SRV target port' =>
      {| address := address service; fqdn := target; name := name service;
         port := port'; text := text service |}
  | _ => service
  end.

Definition setText (service : MdnsService) (answer : MdnsAnswer) : MdnsService :=
  match data answer with
  | TXT buffers =>
      {| address := address service; fqdn := fqdn service; name := name service;
         port := port service; text := buffers |}
  | _ => service
  end.

Definition setAddress (service : MdnsService) (answer : MdnsAnswer) : MdnsService :=
  match data answer with
  | A addr =>
      {| address := addr; fqdn := fqdn service; name := name service;
         port := port service; text := text service |}
  | _ => service
  end.

Definition ownedBy (owner : string) (answer : MdnsAnswer) : bool :=
  String.eqb (Dns.name answer) owner.

Definition resolve (packet : MdnsPacket) (service : MdnsService) : MdnsService :=
  let service1 :=
    fold_left setServer
      (List.filter isServerAnswer
         (List.filter (ownedBy (name service)) (answers packet))) service in
  let service2 :=
    fold_left setText
      (List.filter isTextAnswer
         (List.filter (ownedBy (name service1)) (answers packet))) service1 in
  fold_left setAddress
    (List.filter isAddressAnswer
       (List.filter (ownedBy (fqdn service2)) (answers packet))) service2.

(** Truthiness of [this.knownServices[name]]: an entry of its own, or a
    property inherited from [Object.prototype]. *)
Definition known (reg : gmap string MdnsService) (name : string) : bool :=
  bool_decide (is_Some (reg !! name)) || Js.inherited name.

(** Body of [upServices.forEach]. *)
Definition upStep (packet : MdnsPacket)
    (st : gmap string MdnsService * list Event) (service : MdnsService)
  : gmap string MdnsService * list Event :=
  let service' := resolve packet service in
  if Js.truthyString (fqdn service') && negb (known (fst st) (name service'))
  then (<[name service' := service']> (fst st), snd st ++ [ServiceUp service'])
  else st.

(** Body of [downServices.forEach]. An entry of the registry shadows an
    inherited property; [delete] of an inherited property does nothing. *)
Definition downStep (st : gmap string MdnsService * list Event) (name : string)
  : gmap string MdnsService * list Event :=
  match fst st !! name with
  | Some service => (delete name (fst st), snd st ++ [ServiceDown service])
  | None =>
      if Js.inherited name
      then (fst st, snd st ++ [ServiceDownInherited name])
      else st
  end.

(** [onResponse]: the registry after the packet and the events fired, in
    firing order. *)
Definition onResponse (type : option string) (knownServices : gmap string MdnsService)
    (packet : MdnsPacket) : gmap string MdnsService * list Event :=
  let staged := stage type packet in
  fold_left downStep (snd staged)
    (fold_left (upStep packet) (fst staged) (knownServices, [])).

(** The client object: the bound type, the registry, and how many times
    [onResponse] is registered on the socket's [response] event. *)
Record State : Type := {
  type : option string;
  knownServices : gmap string MdnsService;
  listeners : nat
}.

Definition init : State :=
  {| type := None; knownServices := ∅; listeners := 0 |}.

(** [stop()]: [removeListener] drops one registration if there is one. *)
Definition stop (c : State) : State :=
  {| type := type c; knownServices := ∅; listeners := Nat.pred (listeners c) |}.

(** [start(type)] of [src/services/mdnsClient.ts] suspends at
    [await this.stop()]. [startEnter] is what runs at the call, and
    [startResume] what runs when the call resumes, up to the query it sends;
    other calls and packets can come in between. *)
Definition startEnter (c : State) : State := stop c.

Definition startResume (type' : string) (c : State) : State :=
  {| type := Some type'; knownServices := knownServices c;
     listeners := S (listeners c) |}.

(** A [start(type)] whose two halves run back to back: the call is awaited
    and nothing else happens on the client meanwhile. This is also
    [start()] of the second copy of the client, which does not suspend
    before it registers the listener, for a client created with [type']. *)
Definition start (type' : string) (c : State) : State :=
  startResume type' (startEnter c).

(** One invocation of [onResponse] on an inbound packet; the socket invokes
    it once for each registration. *)
Definition receive (packet : MdnsPacket) (c : State) : State * list Event :=
  let r := onResponse (type c) (knownServices c) packet in
  ({| type := type c; knownServices := fst r; listeners := listeners c |}, snd r).

(** The constructor of the second copy of the client binds the type. *)
Definition create (type' : string) : State :=
  {| type := Some type'; knownServices := ∅; listeners := 0 |}.

Inductive reachable : State -> Prop :=
| reachable_init : reachable init
| reachable_create type' : reachable (create type')
| reachable_start type' c : reachable c -> reachable (start type' c)
| reachable_startResume type' c : reachable c -> reachable (startResume type' c)
| reachable_stop c : reachable c -> reachable (stop c)
| reachable_receive packet c : reachable c -> reachable (fst (receive packet c)).

(** *** Vocabulary of the properties *)

(** The record an up candidate named [n] becomes after the three scans. *)
Definition candidate (packet : MdnsPacket) (n : string) : MdnsService :=
  resolve packet (blank n).

(** The candidate named [n] can enter a registry that has no entry for
    [n]: it is resolved, and [n] is not a name every plain object
    inherits. *)
Definition resolvable (packet : MdnsPacket) (n : string) : bool :=
  Js.truthyString (fqdn (candidate packet n)) && negb (Js.inherited n).

(** The targets of the pointer records owned by the bound type, in record
    order: those with a nonzero TTL ([up = true]) or a zero one. *)
Definition pointerTargets (up : bool) (type : option string) (packet : MdnsPacket)
  : list string :=
  flat_map
    (fun answer =>
       match data answer with
       | PTR n =>
           if Js.strictEq (Dns.name answer) type
              && Bool.eqb (Js.truthyNumber (ttl answer)) up
           then [n] else []
       | _ => []
       end)
    (answers packet).

(** The two later loops of [onResponse], each started with an empty trace. *)
Definition upPhase (packet : MdnsPacket) (names : list string)
    (reg : gmap string MdnsService) : gmap string MdnsService * list Event :=
  fold_left (upStep packet) (List.map blank names) (reg, []).

Definition downPhase (names : list string) (reg : gmap string MdnsService)
  : gmap string MdnsService * list Event :=
  fold_left downStep names (reg, []).

(** The service record an event carries, if it carries one. *)
Definition eventService (e : Event) : option MdnsService :=
  match e with
  | ServiceUp service | ServiceDown service => Some service
  | ServiceDownInherited _ => None
  end.

(** The packet has a pointer record owned by the bound type, with a
    nonzero (respectively zero) TTL, whose target is [n]. *)
Definition upCandidate (type : option string) (packet : MdnsPacket) (n : string) : Prop :=
  exists answer, In answer (answers packet) /\ type = Some (Dns.name answer)
                 /\ ttl answer <> 0 /\ data answer = PTR n.

Definition downCandidate (type : option string) (packet : MdnsPacket) (n : string) : Prop :=
  exists answer, In answer (answers packet) /\ type = Some (Dns.name answer)
                 /\ ttl answer = 0 /\ data answer = PTR n.

(** The packet has a server record owned by [n]; [target] and [port'] are
    those of the last such record. *)
Definition lastServer (packet : MdnsPacket) (n target : string) (port' : Z) : Prop :=
  exists before srv after,
    answers packet = before ++ srv :: after
    /\ Dns.name srv = n /\ data srv = SRV target port'
    /\ Forall (fun answer => Dns.name answer = n -> isServerAnswer answer = false) after.

Definition isUp (e : Event) : bool :=
  match e with ServiceUp _ => true | _ => false end.

Definition isDown (e : Event) : bool :=
  match e with ServiceUp _ => false | _ => true end.

Definition isUpFor (n : string) (e : Event) : bool :=
  match e with
  | ServiceUp service => String.eqb (name service) n
  | _ => false
  end.

(** Every registered record is resolved. *)
Definition resolvedRegistry (reg : gmap string MdnsService) : Prop :=
  forall n service, reg !! n = Some service -> fqdn service <> "".

(** Every record is registered under its own name. *)
Definition keyedByName (reg : gmap string MdnsService) : Prop :=
  forall n service, reg !! n = Some service -> name service = n.

(** Testable property 1 of the design document, read for every packet:
    exactly one up event for [n], carrying the server record's target and
    port, and [n] registered afterwards. *)
Definition upEdge (type : option string) (reg : gmap string MdnsService)
    (packet : MdnsPacket) (n target : string) (port' : Z) : Prop :=
  let r := onResponse type reg packet in
  (exists service, List.filter (isUpFor n) (snd r) = [ServiceUp service]
                   /\ fqdn service = target /\ port service = port')
  /\ is_Some (fst r !! n).

End Client.

(** ** The string primitives the providers call *)

Module Text.

(** A JavaScript number as far as the providers produce one. [Int z] is
    the integer [z], which a double holds exactly; [parseInt] produces it
    for magnitudes up to 2^53. [Rounded z] is the double [parseInt] gives
    for an integer [z] beyond that: the double next to [z] (after the
    twentieth digit an implementation may read zeros), which need not
    equal [z] and is an infinity once [z] is large enough. [-0] is read as
    0. *)
Inductive Number : Type :=
| NaN
| Int (z : Z)
| Rounded (z : Z).

(** The number for a mathematical integer. *)
Definition ofInteger (z : Z) : Number :=
  if Z.abs z <=? 2 ^ 53 then Int z else Rounded z.

Definition isDigit (c : ascii) : bool :=
  let n := nat_of_ascii c in (48 <=? n)%nat && (n <=? 57)%nat.

(** The character class [[a-zA-Z0-9_-]]. *)
Definition isAppIdChar (c : ascii) : bool :=
  let n := nat_of_ascii c in
  ((97 <=? n)%nat && (n <=? 122)%nat)
  || ((65 <=? n)%nat && (n <=? 90)%nat)
  || isDigit c
  || (n =? 95)%nat
  || (n =? 45)%nat.

(** White space and line terminators below 256, as [parseInt] skips them. *)
Definition isWhiteSpace (c : ascii) : bool :=
  let n := nat_of_ascii c in
  ((9 <=? n)%nat && (n <=? 13)%nat) || (n =? 32)%nat || (n =? 160)%nat.

Definition digitValue (c : ascii) : Z := Z.of_nat (nat_of_ascii c) - 48.

Fixpoint trimStart (s : string) : string :=
  match s with
  | String c rest => if isWhiteSpace c then trimStart rest else s
  | EmptyString => s
  end.

(** The value of the longest prefix of decimal digits, if it is not empty. *)
Fixpoint leadingDigits (s : string) (acc : option Z) : option Z :=
  match s with
  | String c rest =>
      if isDigit c
      then leadingDigits rest (Some (10 * default 0 acc + digitValue c))
      else acc
  | EmptyString => acc
  end.

(** [parseInt(s, 10)]. *)
Definition parseInt (s : string) : Number :=
  let trimmed := trimStart s in
  let '(sign, body) :=
    match trimmed with
    | String "-"%char rest => (-1, rest)
    | String "+"%char rest => (1, rest)
    | _ => (1, trimmed)
    end in
  match leadingDigits body None with
  | Some n => ofInteger (sign * n)
  | None => NaN
  end.

(** [s.split(sep)] for a separator of one character. *)
Fixpoint split (sep : ascii) (s : string) : list string :=
  match s with
  | EmptyString => [EmptyString]
  | String c rest =>
      if Ascii.eqb c sep
      then EmptyString :: split sep rest
      else match split sep rest with
           | piece :: pieces => String c piece :: pieces
           | [] => [String c EmptyString]
           end
  end.

(** [s.includes(needle)]. *)
Fixpoint includes (needle s : string) : bool :=
  String.prefix needle s
  || match s with
     | String _ rest => includes needle rest
     | EmptyString => false
     end.

Definition doubleQuote : ascii := ascii_of_nat 34.

(** Does the character occur in the string? *)
Fixpoint hasChar (c : ascii) (s : string) : bool :=
  match s with
  | String c' rest => Ascii.eqb c' c || hasChar c rest
  | EmptyString => false
  end.

Definition allChars (class : ascii -> bool) (s : string) : bool :=
  forallb class (list_ascii_of_string s).

End Text.

(** ** The fragment of regular expressions the process provider uses *)

Module RegExp.

(** A pattern is a sequence of atoms: a literal, an optional character
    [c?], or a capturing group [([class]+)]. *)
Inductive Atom : Type :=
| Lit (s : string)
| Opt (c : ascii)
| Group (class : ascii -> bool).

Fixpoint stripPrefix (p s : string) : option string :=
  match p, s with
  | EmptyString, _ => Some s
  | String a p', String b s' => if Ascii.eqb a b then stripPrefix p' s' else None
  | String _ _, EmptyString => None
  end.

Fixpoint runLength (class : ascii -> bool) (s : string) : nat :=
  match s with
  | String c rest => if class c then S (runLength class rest) else O
  | EmptyString => O
  end.

Fixpoint takeChars (n : nat) (s : string) : string :=
  match n, s with
  | S n', String c rest => String c (takeChars n' rest)
  | _, _ => EmptyString
  end.

Fixpoint dropChars (n : nat) (s : string) : string :=
  match n, s with
  | S n', String _ rest => dropChars n' rest
  | _, _ => s
  end.

(** Backtracking match of the pattern at the start of [s]; the result
    lists the captured groups. Quantifiers are greedy: [Opt] first tries
    to consume its character, [Group] first tries the longest run. *)
Fixpoint matchHere (re : list Atom) (s : string) : option (list string) :=
  match re with
  | [] => Some []
  | Lit l :: re' =>
      match stripPrefix l s with
      | Some rest => matchHere re' rest
      | None => None
      end
  | Opt c :: re' =>
      match s with
      | String c' rest =>
          if Ascii.eqb c' c
          then match matchHere re' rest with
               | Some groups => Some groups
               | None => matchHere re' s
               end
          else matchHere re' s
      | EmptyString => matchHere re' s
      end
  | Group class :: re' =>
      (fix try (n : nat) : option (list string) :=
         match n with
         | O => None
         | S m =>
             match matchHere re' (dropChars (S m) s) with
             | Some groups => Some (takeChars (S m) s :: groups)
             | None => try m
             end
         end) (runLength class s)
  end.

(** [re.exec(s)] on a fresh expression: the leftmost match. *)
Fixpoint exec (re : list Atom) (s : string) : option (list string) :=
  match matchHere re s with
  | Some groups => Some groups
  | None =>
      match s with
      | String _ rest => exec re rest
      | EmptyString => None
      end
  end.

End RegExp.

(** ** Application descriptors *)

Module App.

Record DaprApplication : Type := {
  appId : string;
  httpPort : Text.Number;
  pid : option Z
}.

(** [array.findIndex(p)], with [None] for [-1]. *)
Fixpoint findIndex {X : Type} (p : X -> bool) (l : list X) : option nat :=
  match l with
  | [] => None
  | x :: l' => if p x then Some O else option_map S (findIndex p l')
  end.

Definition sameAppId (application a : DaprApplication) : bool :=
  String.eqb (appId a) (appId application).

End App.

(** ** The mDNS-backed application provider *)

Module MdnsProvider.

Import App.

Record State : Type := {
  applications : list DaprApplication;
  changes : nat   (* firings of onDidChangeEmitter so far *)
}.

Definition init : State := {| applications := []; changes := 0 |}.

(** [parsedText.find(t => t[0] === key)?.[1]] *)
Definition textValue (key : string) (parsedText : list (list string)) : option string :=
  match List.find (fun t => match t !! 0%nat with
                            | Some k => String.eqb k key
                            | None => false
                            end) parsedText with
  | Some t => t !! 1%nat
  | None => None
  end.

Definition truthy (v : option string) : bool :=
  match v with
  | Some s => Js.truthyString s
  | None => false
  end.

(** [text.map(t => t.split('=')).filter(t => t.length === 2)] *)
Definition parsed (text : list string) : list (list string) :=
  List.filter (fun t => (length t =? 2)%nat) (List.map (Text.split "="%char) text).

Definition toApplication (service : Client.MdnsService) : option DaprApplication :=
  let parsedText := parsed (Client.text service) in
  let appId := textValue "appId" parsedText in
  let httpPort := textValue "httpPort" parsedText in
  if truthy appId && truthy httpPort
  then Some {| appId := default "" appId;
               httpPort := Text.parseInt (default "" httpPort);
               pid := None |}
  else None.

Definition fire (p : State) : State :=
  {| applications := applications p; changes := S (changes p) |}.

(** [array.splice(index)] with no delete count: everything from [index]
    on is removed. *)
Definition splice (index : nat) (l : list DaprApplication) : list DaprApplication :=
  take index l.

(** The listener registered on [onServiceDown]. *)
Definition onServiceDown (service : Client.MdnsService) (p : State) : State :=
  let p' :=
    match toApplication service with
    | Some application =>
        match findIndex (sameAppId application) (applications p) with
        | Some index =>
            fire {| applications := splice index (applications p);
                    changes := changes p |}
        | None => p
        end
    | None => p
    end in
  fire p'.

(** The listener registered on [onServiceUp]. *)
Definition onServiceUp (service : Client.MdnsService) (p : State) : State :=
  match toApplication service with
  | Some application =>
      fire {| applications :=
                match findIndex (sameAppId application) (applications p) with
                | Some index => <[index := application]> (applications p)
                | None => applications p ++ [application]
                end;
              changes := changes p |}
  | None => p
  end.

Definition handle (p : State) (e : Client.Event) : State :=
  match e with
  | Client.ServiceUp service => onServiceUp service p
  | Client.ServiceDown service => onServiceDown service p
  | Client.ServiceDownInherited _ =>
      (* the listener throws at [service.text] before it changes anything;
         the emitter reports the error and goes on *)
      p
  end.

(** *** Vocabulary of the properties *)

(** The removal the design document asks for on a down event: exactly
    the matched element goes, the elements after it stay. *)
Definition removeOne (index : nat) (l : list DaprApplication) : list DaprApplication :=
  take index l ++ drop (S index) l.

(** The TXT entry [key=value]. *)
Definition entry (key value : string) : string :=
  (key ++ "=" ++ value)%string.

(** [value] is the value of the first entry of [text] that reads
    [key=...] with a single equals sign. *)
Definition firstValue (key : string) (text : list string) (value : string) : Prop :=
  exists before after,
    text = before ++ entry key value :: after
    /\ Text.hasChar "="%char value = false
    /\ Forall (fun e => forall w, Text.hasChar "="%char w = false -> e <> entry key w)
              before.

Definition parsesNonNegative (value : string) : Prop :=
  exists n, 0 <= n /\ Text.parseInt value = Text.Int n.

(** The translation rule as the design document words it: a descriptor
    iff there are an [appId] entry and an [httpPort] entry whose value
    parses as a non-negative integer. *)
Definition documentedRule (service : Client.MdnsService) : Prop :=
  is_Some (toApplication service)
  <-> (exists v, In (entry "appId" v) (Client.text service))
      /\ (exists v, In (entry "httpPort" v) (Client.text service) /\ parsesNonNegative v).

(** The provider's view after the client processed one packet. *)
Definition deliver (packet : Dns.MdnsPacket) (cp : Client.State * State)
  : Client.State * State :=
  let r := Client.receive packet (fst cp) in
  (fst r, fold_left handle (snd r) (snd cp)).

End MdnsProvider.

(** ** The process-backed application provider *)

Module ProcessProvider.

Import App RegExp.

(** [/--app-id "?(?<appId>[a-zA-Z0-9_-]+)"?/g] *)
Definition appIdRegEx : list Atom :=
  [Lit "--app-id "; Opt Text.doubleQuote; Group Text.isAppIdChar; Opt Text.doubleQuote].

(** [/--dapr-http-port "?(?<port>\d+)"?/g] *)
Definition portRegEx : list Atom :=
  [Lit "--dapr-http-port "; Opt Text.doubleQuote; Group Text.isDigit; Opt Text.doubleQuote].

(** [match?.groups?.[name]] for the single named group of a pattern. *)
Definition namedGroup (m : option (list string)) : option string :=
  match m with
  | Some (g :: _) => Some g
  | _ => None
  end.

Definition getAppId (cmd : string) : option string :=
  namedGroup (exec appIdRegEx cmd).

Definition getHttpPort (cmd : string) : Text.Number :=
  match namedGroup (exec portRegEx cmd) with
  | Some portString => Text.parseInt portString
  | None => Text.Int 3500
  end.

Definition toApplication (cmd : option string) (pid : Z) : option DaprApplication :=
  match cmd with
  | Some cmd' =>
      if Js.truthyString cmd'
      then match getAppId cmd' with
           | Some appId =>
               if Js.truthyString appId
               then Some {| appId := appId; httpPort := getHttpPort cmd'; pid := Some pid |}
               else None
           | None => None
           end
      else None
  | None => None
  end.

(** *** Vocabulary of the properties *)

Definition quote : string := String Text.doubleQuote EmptyString.

(** The command line carries the flag as the pattern wants it:
    [--app-id], a space, an optional double quote, and at least one
    character of the identifier class. *)
Definition hasAppIdFlag (cmd : string) : Prop :=
  exists before q id rest,
    cmd = (before ++ "--app-id " ++ q ++ id ++ rest)%string
    /\ (q = "" \/ q = quote)
    /\ id <> ""
    /\ Text.allChars Text.isAppIdChar id = true.

(** The default-port rule as the design document words it: a line that
    contains [--app-id] and lacks [--dapr-http-port] yields a descriptor
    with port 3500. *)
Definition documentedDefault (cmd : string) (pid : Z) : Prop :=
  Text.includes "--app-id" cmd = true ->
  Text.includes "--dapr-http-port" cmd = false ->
  exists id, toApplication (Some cmd) pid
             = Some {| appId := id; httpPort := Text.Int 3500; pid := Some pid |}.

Record ProcessInfo : Type := {
  cmd : option string;
  processId : Z
}.

(** [processes.map(toApplication).filter(a => a !== undefined)] *)
Definition toApplications (processes : list ProcessInfo) : list DaprApplication :=
  omap (fun process => toApplication (cmd process) (processId process)) processes.

(** *** Refreshing

    [refreshApplications] and [getApplications] suspend at an [await];
    the provider is modelled as a transition system whose actions are the
    calls made on it, the completion of a process listing, and the
    resumption of a suspended caller. Promises returned by [onRefresh]
    are numbered in the order of the calls, so the number of listings
    started is the length of [promises]. *)

Inductive PromiseState : Type := Pending | Fulfilled | Rejected.

Inductive Caller : Type :=
| Timer                               (* the interval: [this.refreshApplications()] *)
| GetApplications (refresh : bool).

Inductive Outcome : Type :=
| Cached (who : Caller)      (* [getApplications] answered without refreshing *)
| Completed (who : Caller)   (* the call's promise was fulfilled *)
| Threw (who : Caller).      (* the call's promise was rejected *)

Record State : Type := {
  applications : option (list DaprApplication);
  currentRefresh : option nat;
  promises : list PromiseState;
  suspended : list (Caller * nat);   (* callers parked at [await this.currentRefresh] *)
  changes : nat;
  outcomes : list Outcome
}.

Inductive Action : Type :=
| CallRefresh
| CallGetApplications (refresh : bool)
| ListingResolves (p : nat) (processes : list ProcessInfo)
| ListingRejects (p : nat)
| Resume (i : nat).

Definition init : State :=
  {| applications := None; currentRefresh := None; promises := [];
     suspended := []; changes := 0; outcomes := [] |}.

Definition listings (s : State) : nat := length (promises s).

(** [refreshApplications] up to its [await]. *)
Definition refreshApplications (who : Caller) (s : State) : State :=
  match currentRefresh s with
  | Some p =>
      {| applications := applications s; currentRefresh := Some p;
         promises := promises s; suspended := suspended s ++ [(who, p)];
         changes := changes s; outcomes := outcomes s |}
  | None =>
      let p := length (promises s) in
      {| applications := applications s; currentRefresh := Some p;
         promises := promises s ++ [Pending]; suspended := suspended s ++ [(who, p)];
         changes := changes s; outcomes := outcomes s |}
  end.

Definition getApplications (refresh : bool) (s : State) : State :=
  if negb (bool_decide (is_Some (applications s))) || refresh
  then refreshApplications (GetApplications refresh) s
  else {| applications := applications s; currentRefresh := currentRefresh s;
          promises := promises s; suspended := suspended s;
          changes := changes s;
          outcomes := outcomes s ++ [Cached (GetApplications refresh)] |}.

(** The rest of [onRefresh] once [listProcesses] has answered. *)
Definition onRefresh (p : nat) (processes : list ProcessInfo) (s : State) : State :=
  {| applications := Some (toApplications processes);
     currentRefresh := currentRefresh s;
     promises := <[p := Fulfilled]> (promises s);
     suspended := suspended s;
     changes := S (changes s);
     outcomes := outcomes s |}.

Definition reject (p : nat) (s : State) : State :=
  {| applications := applications s; currentRefresh := currentRefresh s;
     promises := <[p := Rejected]> (promises s); suspended := suspended s;
     changes := changes s; outcomes := outcomes s |}.

(** The rest of [refreshApplications] after its [await]. *)
Definition resume (i : nat) (who : Caller) (settled : PromiseState) (s : State)
  : option State :=
  match settled with
  | Pending => None
  | Fulfilled =>
      Some {| applications := applications s; currentRefresh := None;
              promises := promises s; suspended := delete i (suspended s);
              changes := changes s; outcomes := outcomes s ++ [Completed who] |}
  | Rejected =>
      Some {| applications := applications s; currentRefresh := currentRefresh s;
              promises := promises s; suspended := delete i (suspended s);
              changes := changes s; outcomes := outcomes s ++ [Threw who] |}
  end.

(** One action; [None] when the action cannot happen in this state. *)
Definition step (a : Action) (s : State) : option State :=
  match a with
  | CallRefresh => Some (refreshApplications Timer s)
  | CallGetApplications refresh => Some (getApplications refresh s)
  | ListingResolves p processes =>
      match promises s !! p with
      | Some Pending => Some (onRefresh p processes s)
      | _ => None
      end
  | ListingRejects p =>
      match promises s !! p with
      | Some Pending => Some (reject p s)
      | _ => None
      end
  | Resume i =>
      match suspended s !! i with
      | Some (who, p) =>
          match promises s !! p with
          | Some settled => resume i who settled s
          | None => None
          end
      | None => None
      end
  end.

Fixpoint run (actions : list Action) (s : State) : option State :=
  match actions with
  | [] => Some s
  | a :: actions' =>
      match step a s with
      | Some s' => run actions' s'
      | None => None
      end
  end.

(** Refresh [p] is the only one outstanding: it is the in-flight marker,
    it is pending, every other listing has completed, and every parked
    caller is waiting for it. *)
Definition soleInFlight (p : nat) (s : State) : Prop :=
  currentRefresh s = Some p
  /\ promises s !! p = Some Pending
  /\ (forall q, q <> p -> promises s !! q <> Some Pending)
  /\ Forall (fun w => snd w = p) (suspended s).

Definition isCompleted (o : Outcome) : bool :=
  match o with Completed _ => true | _ => false end.

(** The provider is stuck on the rejected refresh [p]: [p] is still the
    in-flight marker, no listing is pending, and every parked caller is
    waiting for [p]. *)
Definition wedged (p : nat) (s : State) : Prop :=
  currentRefresh s = Some p
  /\ promises s !! p = Some Rejected
  /\ (forall q, promises s !! q <> Some Pending)
  /\ Forall (fun w => snd w = p) (suspended s).

(** The failure rule read for every run of the provider: once the
    listing of refresh [p] is rejected, after whatever happened [before],
    then whatever happens [after], [p] stays the in-flight marker and no
    further listing is started. *)
Definition staysWedged (before after : list Action) (p : nat) : Prop :=
  forall s s' s'',
    run before init = Some s ->
    step (ListingRejects p) s = Some s' ->
    run after s' = Some s'' ->
    currentRefresh s'' = Some p /\ listings s'' = listings s'.

End ProcessProvider.

(** ** Sample inputs

    The packets of the design document's end-to-end scenarios, and a few
    variations of them. *)

Module Samples.

Import Dns.

Definition daprType : string := "_dapr._tcp.local".

Definition pointerUp : MdnsAnswer :=
  {| name := daprType; ttl := 120; data := PTR "svcA" |}.

Definition pointerDown : MdnsAnswer :=
  {| name := daprType; ttl := 0; data := PTR "svcA" |}.

Definition server : MdnsAnswer :=
  {| name := "svcA"; ttl := 120; data := SRV "host.local" 50001 |}.

Definition serverNoTarget : MdnsAnswer :=
  {| name := "svcA"; ttl := 120; data := SRV "" 50001 |}.

Definition textRecord : MdnsAnswer :=
  {| name := "svcA"; ttl := 120; data := TXT ["appId=myapp"; "httpPort=3501"] |}.

Definition addressRecord : MdnsAnswer :=
  {| name := "host.local"; ttl := 120; data := A "10.0.0.5" |}.

(** PTR, SRV, TXT and A of one service instance. *)
Definition announce : MdnsPacket :=
  {| answers := [pointerUp; server; textRecord; addressRecord] |}.

(** The goodbye packet of the same instance. *)
Definition goodbye : MdnsPacket := {| answers := [pointerDown] |}.

(** Announcement and goodbye in one packet. *)
Definition announceAndGoodbye : MdnsPacket :=
  {| answers := [pointerUp; pointerDown; server] |}.

(** A server record whose target is the empty string. *)
Definition announceNoTarget : MdnsPacket :=
  {| answers := [pointerUp; serverNoTarget] |}.

(** A pointer record with TXT and A records but no server record. *)
Definition announceNoServer : MdnsPacket :=
  {| answers := [pointerUp; textRecord; addressRecord] |}.

Definition serviceA : Client.MdnsService :=
  {| Client.address := "10.0.0.5"; Client.fqdn := "host.local";
     Client.name := "svcA"; Client.port := 50001;
     Client.text := ["appId=myapp"; "httpPort=3501"] |}.

(** An earlier sighting of the same instance on another host. *)
Definition serviceOld : Client.MdnsService :=
  {| Client.address := "10.0.0.9"; Client.fqdn := "old.local";
     Client.name := "svcA"; Client.port := 40000;
     Client.text := ["appId=myapp"; "httpPort=3501"] |}.

Definition registryOld : gmap string Client.MdnsService := {["svcA" := serviceOld]}.

(** The same records for an instance named like a property every plain
    object inherits. *)
Definition pointerUpInherited : MdnsAnswer :=
  {| name := daprType; ttl := 120; data := PTR "constructor" |}.

Definition pointerDownInherited : MdnsAnswer :=
  {| name := daprType; ttl := 0; data := PTR "constructor" |}.

Definition serverInherited : MdnsAnswer :=
  {| name := "constructor"; ttl := 120; data := SRV "host.local" 50001 |}.

Definition announceInherited : MdnsPacket :=
  {| answers := [pointerUpInherited; serverInherited] |}.

Definition goodbyeInherited : MdnsPacket := {| answers := [pointerDownInherited] |}.

(** A service whose [httpPort] entry is not a number. *)
Definition serviceBadPort : Client.MdnsService :=
  {| Client.address := "10.0.0.5"; Client.fqdn := "host.local";
     Client.name := "svcB"; Client.port := 50001;
     Client.text := ["appId=myapp"; "httpPort=abc"] |}.

Definition myapp : App.DaprApplication :=
  {| App.appId := "myapp"; App.httpPort := Text.Int 3501; App.pid := None |}.

Definition orders : App.DaprApplication :=
  {| App.appId := "orders"; App.httpPort := Text.Int 3600; App.pid := None |}.

Definition billing : App.DaprApplication :=
  {| App.appId := "billing"; App.httpPort := Text.Int 3700; App.pid := None |}.

(** A provider that knows three applications, the first of which is the
    one [serviceA] translates to. *)
Definition threeApplications : MdnsProvider.State :=
  {| MdnsProvider.applications := [myapp; orders; billing];
     MdnsProvider.changes := 0 |}.

Definition oneApplication : MdnsProvider.State :=
  {| MdnsProvider.applications := [myapp]; MdnsProvider.changes := 0 |}.

(** [daprd --app-id "orders" --dapr-http-port "3600"] *)
Definition ordersCommand : string :=
  ("daprd --app-id " ++ ProcessProvider.quote ++ "orders" ++ ProcessProvider.quote
   ++ " --dapr-http-port " ++ ProcessProvider.quote ++ "3600"
   ++ ProcessProvider.quote)%string.

Definition ordersNoPort : string := "daprd --app-id orders".

Definition ordersEquals : string := "daprd --app-id=orders".

(** A schedule in which a caller that joined a refresh after it completed
    resumes only after the next refresh was started:
    A calls and starts refresh 0; the listing completes; B calls and
    joins refresh 0, which is still the marker; A resumes and clears the
    marker; X calls and starts refresh 1; B resumes and clears the marker
    again, while refresh 1 is in flight. In JavaScript this is the order
    of the microtasks when B calls after refresh 0 is fulfilled but before
    A's continuation runs, and X's call is queued between the two
    continuations. *)
Definition lateJoiner : list ProcessProvider.Action :=
  [ProcessProvider.CallGetApplications true;
   ProcessProvider.ListingResolves 0 [];
   ProcessProvider.CallGetApplications true;
   ProcessProvider.Resume 0;
   ProcessProvider.CallGetApplications true;
   ProcessProvider.Resume 0].

End Samples.

(** ** Further vocabulary for the client *)

Module ClientVocabulary.

Import Dns Client.

(** [e] is a down event that carries a service record named [n]. *)
Definition isDownFor (n : string) (e : Event) : bool :=
  match e with
  | ServiceUp _ => false
  | ServiceDown service => String.eqb (name service) n
  | ServiceDownInherited _ => false
  end.

(** [e] is a down event that carries a service record. *)
Definition isRecordDown (e : Event) : bool :=
  match e with ServiceDown _ => true | _ => false end.

(** The names of the records the up events of a trace carry, in firing
    order. *)
Definition upNames (evs : list Event) : list string :=
  flat_map (fun e => match e with ServiceUp service => [name service] | _ => [] end) evs.

(** The states of a client each of whose [start] calls ran its two halves
    back to back. These are all the states of the second copy of the
    client, whose [start()] does not suspend before it registers the
    listener. *)
Inductive awaited : State -> Prop :=
| awaited_init : awaited init
| awaited_create type' : awaited (create type')
| awaited_start type' c : awaited c -> awaited (start type' c)
| awaited_stop c : awaited c -> awaited (stop c)
| awaited_receive packet c : awaited c -> awaited (fst (receive packet c)).

(** The socket hands a packet to each registration of [onResponse] in
    turn. *)
Fixpoint invoke (times : nat) (packet : MdnsPacket) (c : State) : State * list Event :=
  match times with
  | O => (c, [])
  | S times' =>
      let r := receive packet c in
      let r' := invoke times' packet (fst r) in
      (fst r', snd r ++ snd r')
  end.

Definition dispatch (packet : MdnsPacket) (c : State) : State * list Event :=
  invoke (listeners c) packet c.

(** The packet has a text record owned by [n]; [entries] are those of the
    last such record. *)
Definition lastText (packet : MdnsPacket) (n : string) (entries : list string) : Prop :=
  exists before txt after,
    answers packet = before ++ txt :: after
    /\ Dns.name txt = n /\ data txt = TXT entries
    /\ Forall (fun answer => Dns.name answer = n -> isTextAnswer answer = false) after.

(** The packet has an address record owned by [host]; [addr] is that of
    the last such record. *)
Definition lastAddress (packet : MdnsPacket) (host addr : string) : Prop :=
  exists before a after,
    answers packet = before ++ a :: after
    /\ Dns.name a = host /\ data a = A addr
    /\ Forall (fun answer => Dns.name answer = host -> isAddressAnswer answer = false) after.

(** No record of the packet is a pointer record owned by the bound type. *)
Definition noPointer (type : option string) (packet : MdnsPacket) : Prop :=
  forall answer, In answer (answers packet) -> type = Some (Dns.name answer) ->
                 isPointerAnswer answer = false.

End ClientVocabulary.

(** ** Further vocabulary for the providers *)

Module ProviderVocabulary.

Import App.

Definition appIds (l : list DaprApplication) : list string := appId <$> l.

(** No two applications of the list have the same id. *)
Definition uniqueIds (l : list DaprApplication) : Prop := NoDup (appIds l).

(** The provider after a sequence of client events. *)
Definition handleAll (events : list Client.Event) (p : MdnsProvider.State)
  : MdnsProvider.State :=
  fold_left MdnsProvider.handle events p.

End ProviderVocabulary.

(** ** Further vocabulary for command lines *)

Module CommandLineVocabulary.

Import App.

(** [needle] occurs in [before ++ tail] at a position inside [before]. *)
Fixpoint occursWithin (needle before tail : string) : bool :=
  match before with
  | EmptyString => false
  | String c before' =>
      String.prefix needle (before ++ tail)%string || occursWithin needle before' tail
  end.

(** [rest] does not continue a run of characters of the class. *)
Definition endsRun (class : ascii -> bool) (rest : string) : bool :=
  match rest with
  | EmptyString => true
  | String c _ => negb (class c)
  end.

(** A descriptor as the process-backed provider builds it: the process id
    is present, the id is a non-empty word of the identifier class, and the
    port is a number that is not negative and not [NaN]. *)
Definition wellFormed (a : DaprApplication) : Prop :=
  is_Some (pid a)
  /\ appId a <> ""
  /\ Text.allChars Text.isAppIdChar (appId a) = true
  /\ match httpPort a with
     | Text.NaN => False
     | Text.Int n | Text.Rounded n => 0 <= n
     end.

End CommandLineVocabulary.

(** ** Further vocabulary for the refresh cycle *)

Module RefreshVocabulary.

Import App ProcessProvider.

Definition isCall (a : Action) : bool :=
  match a with
  | CallRefresh | CallGetApplications _ => true
  | _ => false
  end.

Definition isFulfilled (st : PromiseState) : bool :=
  match st with Fulfilled => true | _ => false end.

(** The number of refreshes that completed successfully. *)
Definition fulfilled (s : State) : nat :=
  length (List.filter isFulfilled (promises s)).

(** The marker and the parked callers refer to refreshes that were started;
    there was one change notification for each fulfilled refresh; and the
    application list is defined exactly when some refresh was fulfilled. *)
Definition consistent (s : State) : Prop :=
  (forall p, currentRefresh s = Some p -> (p < listings s)%nat)
  /\ Forall (fun w => (snd w < listings s)%nat) (suspended s)
  /\ changes s = fulfilled s
  /\ (is_Some (applications s) <-> (0 < changes s)%nat).

(** Every parked caller resumes, the first in line first. *)
Definition drain (s : State) : list Action :=
  replicate (length (suspended s)) (Resume 0).

End RefreshVocabulary.

(** ** Further vocabulary for strings *)

Module TextVocabulary.

(** [pieces.join(sep)] for a separator of one character. *)
Fixpoint join (sep : ascii) (pieces : list string) : string :=
  match pieces with
  | [] => EmptyString
  | [piece] => piece
  | piece :: rest => (piece ++ String sep (join sep rest))%string
  end.

(** The number of occurrences of a character in a string. *)
Fixpoint occurrences (c : ascii) (s : string) : nat :=
  match s with
  | EmptyString => O
  | String c' rest => ((if Ascii.eqb c' c then 1 else 0) + occurrences c rest)%nat
  end.

End TextVocabulary.

(** ** The lazy start of the mDNS-backed provider

    [MdnsBasedDaprApplicationProvider.getApplications] creates and starts
    its client on the first call and suspends at [await
    this.mdnsClient.start()]; the client is listening from the call on, so
    packets can be handled before the call resumes. A call that finds the
    client set returns at once, also while the first call is still
    suspended. A call resolves with the provider's own array, read when the
    call returns. *)

Module MdnsSession.

Import App.

Definition serviceType : string := "_dapr._tcp.local".

Record State : Type := {
  mdnsClient : option Client.State;
  provider : MdnsProvider.State;
  clientsCreated : nat;    (* calls of [mdnsProvider.createClient] *)
  queriesSent : nat;       (* calls of [mdnsClient.start] *)
  awaitingStart : bool     (* the first call is suspended at its [await] *)
}.

Inductive Result : Type :=
| Resolved (applications : list DaprApplication)
| Rejected.

Definition init : State :=
  {| mdnsClient := None; provider := MdnsProvider.init;
     clientsCreated := 0; queriesSent := 0; awaitingStart := false |}.

(** [getApplications()] up to its [await], with the result of a call that
    returns without suspending. *)
Definition getApplications (s : State) : State * option Result :=
  match mdnsClient s with
  | None =>
      ({| mdnsClient := Some (Client.start serviceType (Client.create serviceType));
          provider := provider s;
          clientsCreated := S (clientsCreated s);
          queriesSent := S (queriesSent s);
          awaitingStart := true |},
       None)
  | Some _ => (s, Some (Resolved (MdnsProvider.applications (provider s))))
  end.

(** The query of [start()] was sent ([queryOk]) or failed: the suspended
    call resumes, or rejects. *)
Definition startSettles (queryOk : bool) (s : State) : State * option Result :=
  if awaitingStart s
  then ({| mdnsClient := mdnsClient s; provider := provider s;
           clientsCreated := clientsCreated s; queriesSent := queriesSent s;
           awaitingStart := false |},
        Some (if queryOk
              then Resolved (MdnsProvider.applications (provider s))
              else Rejected))
  else (s, None).

(** A packet reaches the provider through the client, once there is one. *)
Definition receive (packet : Dns.MdnsPacket) (s : State) : State :=
  match mdnsClient s with
  | None => s
  | Some client =>
      let r := MdnsProvider.deliver packet (client, provider s) in
      {| mdnsClient := Some (fst r); provider := snd r;
         clientsCreated := clientsCreated s; queriesSent := queriesSent s;
         awaitingStart := awaitingStart s |}
  end.

Inductive Action : Type :=
| Call
| StartSettles (queryOk : bool)
| Packet (packet : Dns.MdnsPacket).

Definition step (a : Action) (s : State) : State * option Result :=
  match a with
  | Call => getApplications s
  | StartSettles queryOk => startSettles queryOk s
  | Packet packet => (receive packet s, None)
  end.

(** The state after a sequence of actions. *)
Definition run (actions : list Action) (s : State) : State :=
  fold_left (fun s' a => fst (step a s')) actions s.

Definition isSettle (a : Action) : bool :=
  match a with StartSettles _ => true | _ => false end.

End MdnsSession.

(** * Properties *)

Module JsFacts.

Import Js.

Lemma truthyString_true s : truthyString s = true <-> s <> "".
Proof. destruct s; simpl; split; intros; congruence. Qed.

Lemma truthyString_false s : truthyString s = false <-> s = "".
Proof. destruct s; simpl; split; intros; congruence. Qed.

Lemma truthyNumber_true n : truthyNumber n = true <-> n <> 0.
Proof. unfold truthyNumber. rewrite negb_true_iff, Z.eqb_neq. tauto. Qed.

Lemma truthyNumber_false n : truthyNumber n = false <-> n = 0.
Proof. unfold truthyNumber. rewrite negb_false_iff, Z.eqb_eq. tauto. Qed.

Lemma strictEq_true a b : strictEq a b = true <-> b = Some a.
Proof.
  destruct b as [b|]; simpl; [rewrite String.eqb_eq|]; split; intros; congruence.
Qed.

End JsFacts.

(** ** The staging scan and the resolution of a candidate *)

Module StageFacts.

Import Dns Client JsFacts.

Lemma stageStep_fold l : forall acc,
  fold_left stageStep l acc
  = (fst acc ++ fst (fold_left stageStep l ([], [])),
     snd acc ++ snd (fold_left stageStep l ([], []))).
Proof.
  induction l as [|a l IH]; intros [u d]; simpl.
  - now rewrite !app_nil_r.
  - rewrite IH. rewrite (IH (stageStep ([], []) a)).
    unfold stageStep; simpl.
    destruct (data a); simpl; try reflexivity;
      destruct (Js.truthyNumber (ttl a)); simpl; now rewrite <- ?app_assoc.
Qed.

(** The staged candidates are the blank records of the nonzero-TTL
    pointer targets and the zero-TTL pointer targets, in record order. *)
Lemma stage_pointerTargets type packet :
  stage type packet
  = (List.map blank (pointerTargets true type packet), pointerTargets false type packet).
Proof.
  unfold stage, pointerTargets. destruct packet as [l]; simpl.
  induction l as [|a l IH]; simpl; [reflexivity|].
  destruct (Js.strictEq (Dns.name a) type) eqn:Ht; simpl.
  - unfold isPointerAnswer at 1.
    destruct (data a) eqn:Hd; simpl; try exact IH.
    rewrite stageStep_fold, IH. unfold stageStep; rewrite Hd; simpl.
    destruct (Js.truthyNumber (ttl a)); simpl; reflexivity.
  - rewrite IH. destruct (data a); reflexivity.
Qed.

Lemma pointerTargets_up type packet n :
  In n (pointerTargets true type packet) <-> upCandidate type packet n.
Proof.
  unfold pointerTargets, upCandidate. rewrite in_flat_map. split.
  - intros (a & Ha & Hn). exists a. destruct (data a) eqn:Hd; try contradiction.
    destruct (Js.strictEq (Dns.name a) type) eqn:Ht; simpl in Hn; [|contradiction].
    destruct (Js.truthyNumber (ttl a)) eqn:Hl; simpl in Hn; [|contradiction].
    destruct Hn as [<-|[]].
    apply strictEq_true in Ht. apply truthyNumber_true in Hl. auto.
  - intros (a & Ha & Ht & Hl & Hd). exists a. split; [assumption|].
    rewrite Hd. apply strictEq_true in Ht. apply truthyNumber_true in Hl.
    rewrite Ht, Hl. simpl. auto.
Qed.

Lemma pointerTargets_down type packet n :
  In n (pointerTargets false type packet) <-> downCandidate type packet n.
Proof.
  unfold pointerTargets, downCandidate. rewrite in_flat_map. split.
  - intros (a & Ha & Hn). exists a. destruct (data a) eqn:Hd; try contradiction.
    destruct (Js.strictEq (Dns.name a) type) eqn:Ht; simpl in Hn; [|contradiction].
    destruct (Js.truthyNumber (ttl a)) eqn:Hl; simpl in Hn; [contradiction|].
    destruct Hn as [<-|[]].
    apply strictEq_true in Ht. apply truthyNumber_false in Hl. auto.
  - intros (a & Ha & Ht & Hl & Hd). exists a. split; [assumption|].
    rewrite Hd. apply strictEq_true in Ht. apply truthyNumber_false in Hl.
    rewrite Ht, Hl. simpl. auto.
Qed.

(** A scan that leaves a field alone leaves it alone over a whole fold. *)
Lemma fold_preserves {S X F : Type} (f : S -> X -> S) (field : S -> F) l :
  (forall s a, field (f s a) = field s) ->
  forall s, field (fold_left f l s) = field s.
Proof.
  intros Hf. induction l as [|a l IH]; intros s; simpl; [reflexivity|].
  now rewrite IH, Hf.
Qed.

Lemma setServer_name s a : name (setServer s a) = name s.
Proof. unfold setServer. now destruct (data a). Qed.

Lemma setText_name s a : name (setText s a) = name s.
Proof. unfold setText. now destruct (data a). Qed.

Lemma setAddress_name s a : name (setAddress s a) = name s.
Proof. unfold setAddress. now destruct (data a). Qed.

Lemma setText_fqdn s a : fqdn (setText s a) = fqdn s.
Proof. unfold setText. now destruct (data a). Qed.

Lemma setAddress_fqdn s a : fqdn (setAddress s a) = fqdn s.
Proof. unfold setAddress. now destruct (data a). Qed.

Lemma setText_port s a : port (setText s a) = port s.
Proof. unfold setText. now destruct (data a). Qed.

Lemma setAddress_port s a : port (setAddress s a) = port s.
Proof. unfold setAddress. now destruct (data a). Qed.

Lemma resolve_name packet s : name (resolve packet s) = name s.
Proof.
  unfold resolve.
  rewrite (fold_preserves setAddress name) by apply setAddress_name.
  rewrite (fold_preserves setText name) by apply setText_name.
  now rewrite (fold_preserves setServer name) by apply setServer_name.
Qed.

Lemma candidate_name packet n : name (candidate packet n) = n.
Proof. unfold candidate. now rewrite resolve_name. Qed.

(** The server scan of a candidate, seen from the last server record. *)
Lemma candidate_lastServer packet n target port' :
  lastServer packet n target port' ->
  fqdn (candidate packet n) = target /\ port (candidate packet n) = port'.
Proof.
  intros (pre & srv & post & Hl & Hn & Hd & Hpost).
  unfold candidate, resolve.
  rewrite (fold_preserves setAddress fqdn) by apply setAddress_fqdn.
  rewrite (fold_preserves setAddress port) by apply setAddress_port.
  rewrite (fold_preserves setText fqdn) by apply setText_fqdn.
  rewrite (fold_preserves setText port) by apply setText_port.
  simpl.
  assert (Hown : ownedBy n srv = true) by (unfold ownedBy; now apply String.eqb_eq).
  assert (Hsrv : isServerAnswer srv = true) by (unfold isServerAnswer; now rewrite Hd).
  assert (Hnil : List.filter isServerAnswer (List.filter (ownedBy n) post) = []).
  { clear Hl. induction post as [|a post IH]; simpl; [reflexivity|].
    inversion_clear Hpost as [|? ? Ha Hrest].
    destruct (ownedBy n a) eqn:Ho; simpl; [|now apply IH].
    unfold ownedBy in Ho. apply String.eqb_eq in Ho.
    rewrite (Ha Ho). now apply IH. }
  assert (Hscan : List.filter isServerAnswer (List.filter (ownedBy n) (answers packet))
                  = List.filter isServerAnswer (List.filter (ownedBy n) pre) ++ [srv]).
  { rewrite Hl, !List.filter_app. simpl. rewrite Hown. simpl. now rewrite Hsrv, Hnil. }
  rewrite Hscan, fold_left_app. simpl. unfold setServer. rewrite Hd. simpl. auto.
Qed.

End StageFacts.

(** ** The up phase and the down phase of [onResponse] *)

Module PhaseFacts.

Import Dns Client JsFacts StageFacts.

Lemma upStep_trace packet reg ev c :
  upStep packet (reg, ev) c
  = (fst (upStep packet (reg, []) c), ev ++ snd (upStep packet (reg, []) c)).
Proof.
  unfold upStep; simpl.
  destruct (_ && _); simpl; [reflexivity | now rewrite app_nil_r].
Qed.

Lemma upFold_trace packet l : forall reg ev,
  fold_left (upStep packet) l (reg, ev)
  = (fst (fold_left (upStep packet) l (reg, [])),
     ev ++ snd (fold_left (upStep packet) l (reg, []))).
Proof.
  induction l as [|c l IH]; intros reg ev; simpl.
  - now rewrite app_nil_r.
  - rewrite upStep_trace.
    destruct (upStep packet (reg, []) c) as [reg1 ev1]; simpl.
    rewrite IH, (IH reg1 ev1). simpl. now rewrite app_assoc.
Qed.

Lemma downStep_trace reg ev n :
  downStep (reg, ev) n = (fst (downStep (reg, []) n), ev ++ snd (downStep (reg, []) n)).
Proof.
  unfold downStep; simpl.
  destruct (reg !! n); simpl; [reflexivity|].
  destruct (Js.inherited n); simpl; [reflexivity | now rewrite app_nil_r].
Qed.

Lemma downFold_trace l : forall reg ev,
  fold_left downStep l (reg, ev)
  = (fst (downPhase l reg), ev ++ snd (downPhase l reg)).
Proof.
  unfold downPhase.
  induction l as [|n l IH]; intros reg ev; simpl.
  - now rewrite app_nil_r.
  - rewrite downStep_trace.
    destruct (downStep (reg, []) n) as [reg1 ev1]; simpl.
    rewrite IH, (IH reg1 ev1). simpl. now rewrite app_assoc.
Qed.

Lemma upPhase_nil packet reg : upPhase packet [] reg = (reg, []).
Proof. reflexivity. Qed.

Lemma upPhase_cons packet m names reg :
  upPhase packet (m :: names) reg
  = if resolvable packet m && negb (bool_decide (is_Some (reg !! m)))
    then (fst (upPhase packet names (<[m := candidate packet m]> reg)),
          ServiceUp (candidate packet m)
            :: snd (upPhase packet names (<[m := candidate packet m]> reg)))
    else upPhase packet names reg.
Proof.
  unfold upPhase. simpl. unfold upStep at 2. simpl.
  fold (candidate packet m). rewrite candidate_name.
  unfold known, resolvable.
  replace (Js.truthyString (fqdn (candidate packet m))
           && negb (bool_decide (is_Some (reg !! m)) || Js.inherited m))
    with (Js.truthyString (fqdn (candidate packet m)) && negb (Js.inherited m)
          && negb (bool_decide (is_Some (reg !! m))))
    by (destruct (Js.truthyString _), (Js.inherited m), (bool_decide _); reflexivity).
  destruct (_ && _); [|reflexivity].
  now rewrite upFold_trace.
Qed.

Lemma downPhase_nil reg : downPhase [] reg = (reg, []).
Proof. reflexivity. Qed.

Lemma downPhase_cons m names reg :
  downPhase (m :: names) reg
  = match reg !! m with
    | Some service =>
        (fst (downPhase names (delete m reg)),
         ServiceDown service :: snd (downPhase names (delete m reg)))
    | None =>
        if Js.inherited m
        then (fst (downPhase names reg),
              ServiceDownInherited m :: snd (downPhase names reg))
        else downPhase names reg
    end.
Proof.
  unfold downPhase at 1. simpl. unfold downStep at 2. simpl.
  destruct (reg !! m); [now rewrite downFold_trace|].
  destruct (Js.inherited m); [|reflexivity].
  simpl. now rewrite downFold_trace.
Qed.

(** [onResponse] is the up phase over the nonzero-TTL targets followed by
    the down phase over the zero-TTL targets. *)
Lemma onResponse_phases type reg packet :
  let up := upPhase packet (pointerTargets true type packet) reg in
  let down := downPhase (pointerTargets false type packet) (fst up) in
  onResponse type reg packet = (fst down, snd up ++ snd down).
Proof.
  simpl. unfold onResponse. rewrite stage_pointerTargets. simpl.
  fold (upPhase packet (pointerTargets true type packet) reg).
  destruct (upPhase packet (pointerTargets true type packet) reg) as [reg1 ev1].
  now rewrite downFold_trace.
Qed.

End PhaseFacts.

Module UpFacts.

Import Dns Client JsFacts StageFacts PhaseFacts.

Lemma mem_nil (n : string) : bool_decide (n ∈ @nil string) = false.
Proof. apply bool_decide_eq_false_2. apply not_elem_of_nil. Qed.

Lemma mem_cons_eq (n : string) names : bool_decide (n ∈ n :: names) = true.
Proof. apply bool_decide_eq_true_2. apply list_elem_of_here. Qed.

Lemma mem_cons_ne (n m : string) names :
  n <> m -> bool_decide (n ∈ m :: names) = bool_decide (n ∈ names).
Proof.
  intros Hne. apply bool_decide_ext. rewrite elem_of_cons. tauto.
Qed.

Lemma resolvable_true packet n :
  resolvable packet n = true
  <-> fqdn (candidate packet n) <> "" /\ Js.inherited n = false.
Proof.
  unfold resolvable. rewrite andb_true_iff, negb_true_iff, truthyString_true. tauto.
Qed.

Lemma resolvable_unresolved packet n :
  fqdn (candidate packet n) = "" -> resolvable packet n = false.
Proof. unfold resolvable. now intros ->. Qed.

Lemma resolvable_inherited packet n :
  Js.inherited n = true -> resolvable packet n = false.
Proof. unfold resolvable. intros ->. apply andb_false_r. Qed.

(** What the up phase stores under a name: an entry already there stays;
    otherwise the candidate of that name, if it can be registered. *)
Lemma upPhase_lookup packet names : forall reg n,
  fst (upPhase packet names reg) !! n
  = match reg !! n with
    | Some old => Some old
    | None =>
        if bool_decide (n ∈ names) && resolvable packet n
        then Some (candidate packet n)
        else None
    end.
Proof.
  induction names as [|m names IH]; intros reg n.
  - rewrite upPhase_nil. simpl. now destruct (reg !! n).
  - rewrite upPhase_cons.
    destruct (resolvable packet m) eqn:Hf; simpl.
    + destruct (reg !! m) as [old|] eqn:Hm; simpl.
      * rewrite IH.
        destruct (reg !! n) eqn:Hn; [reflexivity|].
        destruct (decide (n = m)) as [->|Hne]; [congruence|].
        now rewrite mem_cons_ne.
      * rewrite IH. destruct (decide (m = n)) as [->|Hne].
        -- rewrite lookup_insert_eq, Hm.
           rewrite mem_cons_eq. simpl. now rewrite Hf.
        -- rewrite lookup_insert_ne by assumption.
           destruct (reg !! n); [reflexivity|].
           now rewrite mem_cons_ne.
    + rewrite IH. destruct (reg !! n) eqn:Hn; [reflexivity|].
      destruct (decide (n = m)) as [->|Hne].
      * rewrite Hf, !andb_false_r. reflexivity.
      * now rewrite mem_cons_ne.
Qed.

(** Every event of the up phase is the up event of a resolved candidate
    that was not registered before and whose name is not inherited. *)
Lemma upPhase_fired packet names : forall reg e,
  In e (snd (upPhase packet names reg)) ->
  exists m, In m names /\ e = ServiceUp (candidate packet m)
            /\ fqdn (candidate packet m) <> "" /\ reg !! m = None
            /\ Js.inherited m = false.
Proof.
  induction names as [|m names IH]; intros reg e.
  - rewrite upPhase_nil. intros [].
  - rewrite upPhase_cons.
    destruct (resolvable packet m) eqn:Hf; simpl.
    + destruct (reg !! m) as [old|] eqn:Hm; simpl.
      * intros He.
        destruct (IH _ _ He) as (k & Hk & ? & ? & ? & ?). exists k. auto.
      * intros [<-|He].
        -- exists m. apply resolvable_true in Hf as [? ?]. auto.
        -- destruct (IH _ _ He) as (k & Hk & ? & ? & Hnone & ?). exists k.
           repeat split; auto.
           destruct (decide (m = k)) as [->|Hne];
             [rewrite lookup_insert_eq in Hnone; discriminate|].
           now rewrite lookup_insert_ne in Hnone.
    + intros He. destruct (IH _ _ He) as (k & Hk & ? & ? & ? & ?). exists k. auto.
Qed.

Lemma isUpFor_candidate packet m n :
  isUpFor n (ServiceUp (candidate packet m)) = bool_decide (m = n).
Proof.
  simpl. rewrite candidate_name.
  destruct (String.eqb m n) eqn:He.
  - apply String.eqb_eq in He. now rewrite bool_decide_eq_true_2.
  - apply String.eqb_neq in He. now rewrite bool_decide_eq_false_2.
Qed.

(** The up events of the up phase that concern one name: exactly one if
    the name was not registered and its candidate can be, else none. *)
Lemma upPhase_filter packet names : forall reg n,
  List.filter (isUpFor n) (snd (upPhase packet names reg))
  = if bool_decide (reg !! n = None) && bool_decide (n ∈ names)
       && resolvable packet n
    then [ServiceUp (candidate packet n)]
    else [].
Proof.
  induction names as [|m names IH]; intros reg n.
  - rewrite upPhase_nil, mem_nil. simpl. now rewrite andb_false_r.
  - rewrite upPhase_cons.
    destruct (resolvable packet m) eqn:Hf; simpl.
    + destruct (reg !! m) as [old|] eqn:Hm; simpl.
      * rewrite IH.
        destruct (decide (n = m)) as [->|Hne].
        -- rewrite (bool_decide_eq_false_2 (reg !! m = None)) by congruence.
           reflexivity.
        -- now rewrite mem_cons_ne.
      * fold (isUpFor n (ServiceUp (candidate packet m))).
        rewrite isUpFor_candidate, IH. destruct (decide (m = n)) as [->|Hne].
        -- rewrite bool_decide_eq_true_2 by reflexivity.
           rewrite (bool_decide_eq_false_2 (<[n:=_]> reg !! n = None))
             by (rewrite lookup_insert_eq; discriminate).
           rewrite (bool_decide_eq_true_2 (reg !! n = None)) by assumption.
           rewrite mem_cons_eq.
           simpl. now rewrite Hf.
        -- rewrite bool_decide_eq_false_2 by assumption.
           rewrite lookup_insert_ne by assumption.
           now rewrite mem_cons_ne.
    + rewrite IH. destruct (decide (n = m)) as [->|Hne].
      * now rewrite Hf, !andb_false_r.
      * now rewrite mem_cons_ne.
Qed.

(** Up events fire in record order. *)
Lemma upPhase_order packet names : forall reg,
  sublist (snd (upPhase packet names reg))
          (List.map (fun n => ServiceUp (candidate packet n)) names).
Proof.
  induction names as [|m names IH]; intros reg.
  - rewrite upPhase_nil. constructor.
  - rewrite upPhase_cons. destruct (_ && _); simpl.
    + apply sublist_skip, IH.
    + apply sublist_cons, IH.
Qed.

Lemma upPhase_all_up packet names reg :
  Forall (fun e => isUp e = true) (snd (upPhase packet names reg)).
Proof.
  apply List.Forall_forall. intros e He.
  destruct (upPhase_fired _ _ _ _ He) as (m & _ & -> & _). reflexivity.
Qed.

Lemma upPhase_resolved packet names reg :
  resolvedRegistry reg -> resolvedRegistry (fst (upPhase packet names reg)).
Proof.
  intros Hreg n s. rewrite upPhase_lookup.
  destruct (reg !! n) eqn:Hn.
  - intros [= <-]. eauto.
  - destruct (bool_decide _); simpl; [|discriminate].
    destruct (resolvable packet n) eqn:Hf; [|discriminate].
    intros [= <-]. now apply resolvable_true in Hf as [? _].
Qed.

Lemma upPhase_keyed packet names reg :
  keyedByName reg -> keyedByName (fst (upPhase packet names reg)).
Proof.
  intros Hreg n s. rewrite upPhase_lookup.
  destruct (reg !! n) eqn:Hn.
  - intros [= <-]. eauto.
  - destruct (_ && _); [|discriminate].
    intros [= <-]. apply candidate_name.
Qed.

End UpFacts.

Module DownFacts.

Import Dns Client JsFacts StageFacts PhaseFacts.

(** The down phase removes exactly the names it is given. *)
Lemma downPhase_lookup names : forall reg n,
  fst (downPhase names reg) !! n = if bool_decide (n ∈ names) then None else reg !! n.
Proof.
  induction names as [|m names IH]; intros reg n.
  - now rewrite downPhase_nil, UpFacts.mem_nil.
  - rewrite downPhase_cons. destruct (decide (n = m)) as [->|Hne].
    + rewrite UpFacts.mem_cons_eq.
      destruct (reg !! m) eqn:Hm; [|destruct (Js.inherited m)]; simpl; rewrite IH;
        destruct (bool_decide (m ∈ names)); try reflexivity; try assumption.
      apply lookup_delete_eq.
    + rewrite UpFacts.mem_cons_ne by assumption.
      destruct (reg !! m); [|destruct (Js.inherited m)]; simpl; rewrite IH;
        try reflexivity.
      now rewrite lookup_delete_ne by congruence.
Qed.

(** Every event of the down phase comes from one of the given names: it
    carries the entry that was registered under the name, or, for an
    inherited name, the inherited value. *)
Lemma downPhase_fired names : forall reg e,
  In e (snd (downPhase names reg)) ->
  exists m, In m names
            /\ ((exists service, e = ServiceDown service /\ reg !! m = Some service)
                \/ (e = ServiceDownInherited m /\ Js.inherited m = true)).
Proof.
  induction names as [|m names IH]; intros reg e.
  - rewrite downPhase_nil. intros [].
  - rewrite downPhase_cons. destruct (reg !! m) as [s|] eqn:Hm; simpl.
    + intros [<-|He].
      * exists m. split; [now left|]. left. eauto.
      * destruct (IH _ _ He) as (k & Hk & [(s' & -> & Hs)|[-> Hi]]); exists k;
          (split; [now right|]); [left | right; auto].
        exists s'. split; [reflexivity|].
        destruct (decide (m = k)) as [->|Hne];
          [rewrite lookup_delete_eq in Hs; discriminate|].
        now rewrite lookup_delete_ne in Hs.
    + destruct (Js.inherited m) eqn:Hinh; simpl.
      * intros [<-|He].
        -- exists m. split; [now left|]. right. auto.
        -- destruct (IH _ _ He) as (k & Hk & Hcase). exists k. split; [now right|].
           exact Hcase.
      * intros He. destruct (IH _ _ He) as (k & Hk & Hcase). exists k.
        split; [now right | exact Hcase].
Qed.

(** A registered name that is given to the down phase fires. *)
Lemma downPhase_fires names : forall reg n service,
  In n names -> reg !! n = Some service ->
  In (ServiceDown service) (snd (downPhase names reg)).
Proof.
  induction names as [|m names IH]; intros reg n s Hin Hn; [destruct Hin|].
  rewrite downPhase_cons. destruct (decide (m = n)) as [->|Hne].
  - rewrite Hn. now left.
  - destruct Hin as [?|Hin]; [contradiction|].
    destruct (reg !! m); [right|destruct (Js.inherited m); [right|]];
      apply (IH _ n); auto.
    now rewrite lookup_delete_ne.
Qed.

(** An inherited name without an entry that is given to the down phase
    fires with the inherited value. *)
Lemma downPhase_fires_inherited names : forall reg n,
  In n names -> reg !! n = None -> Js.inherited n = true ->
  In (ServiceDownInherited n) (snd (downPhase names reg)).
Proof.
  induction names as [|m names IH]; intros reg n Hin Hn Hinh; [destruct Hin|].
  rewrite downPhase_cons. destruct (decide (m = n)) as [->|Hne].
  - rewrite Hn, Hinh. now left.
  - destruct Hin as [?|Hin]; [contradiction|].
    destruct (reg !! m); [right|destruct (Js.inherited m); [right|]];
      apply (IH _ n); auto.
    now rewrite lookup_delete_ne.
Qed.

(** Names that are neither registered nor inherited are skipped without a
    trace. *)
Lemma downPhase_absent names : forall reg,
  (forall n, In n names -> reg !! n = None /\ Js.inherited n = false) ->
  downPhase names reg = (reg, []).
Proof.
  induction names as [|m names IH]; intros reg Habs; [reflexivity|].
  rewrite downPhase_cons. destruct (Habs m) as [-> ->]; [now left|].
  apply IH. intros n Hn. apply Habs. now right.
Qed.

Lemma downPhase_all_down names reg :
  Forall (fun e => isDown e = true) (snd (downPhase names reg)).
Proof.
  apply List.Forall_forall. intros e He.
  destruct (downPhase_fired _ _ _ He) as (m & _ & [(s & -> & _)|[-> _]]); reflexivity.
Qed.

Lemma downPhase_sub names reg n service :
  fst (downPhase names reg) !! n = Some service -> reg !! n = Some service.
Proof. rewrite downPhase_lookup. now destruct (bool_decide _). Qed.

End DownFacts.

(** ** Packet processing of the mDNS client *)

Module ClientTheorems.

Import Dns Client JsFacts StageFacts PhaseFacts UpFacts DownFacts.

Lemma filter_isUpFor_down n evs :
  Forall (fun e => isDown e = true) evs -> List.filter (isUpFor n) evs = [].
Proof.
  induction 1 as [|e evs He _ IH]; [reflexivity|].
  destruct e; [discriminate| |]; exact IH.
Qed.

Lemma mem_up type packet n :
  bool_decide (n ∈ pointerTargets true type packet) = true <-> upCandidate type packet n.
Proof. now rewrite bool_decide_eq_true, list_elem_of_In, pointerTargets_up. Qed.

Lemma mem_down type packet n :
  bool_decide (n ∈ pointerTargets false type packet) = true <-> downCandidate type packet n.
Proof. now rewrite bool_decide_eq_true, list_elem_of_In, pointerTargets_down. Qed.

Lemma mem_down_false type packet n :
  ~ downCandidate type packet n ->
  bool_decide (n ∈ pointerTargets false type packet) = false.
Proof.
  intros Hno. apply not_true_is_false. now rewrite mem_down.
Qed.

(** The up events of a whole packet that concern one name. *)
Lemma onResponse_filter type reg packet n :
  List.filter (isUpFor n) (snd (onResponse type reg packet))
  = if bool_decide (reg !! n = None)
       && bool_decide (n ∈ pointerTargets true type packet)
       && resolvable packet n
    then [ServiceUp (candidate packet n)]
    else [].
Proof.
  rewrite onResponse_phases. simpl. rewrite List.filter_app.
  rewrite (filter_isUpFor_down n (snd (downPhase _ _))) by apply downPhase_all_down.
  now rewrite app_nil_r, upPhase_filter.
Qed.

(** What a whole packet leaves under one name. *)
Lemma onResponse_lookup type reg packet n :
  fst (onResponse type reg packet) !! n
  = if bool_decide (n ∈ pointerTargets false type packet) then None
    else match reg !! n with
         | Some old => Some old
         | None =>
             if bool_decide (n ∈ pointerTargets true type packet)
                && resolvable packet n
             then Some (candidate packet n)
             else None
         end.
Proof.
  rewrite onResponse_phases. simpl. now rewrite downPhase_lookup, upPhase_lookup.
Qed.

(** C1 (as amended). A packet with a nonzero-TTL pointer record owned by
    the bound type and targeting [n], whose last server record owned by
    [n] has a non-empty target, fires exactly one [onServiceUp] for [n]
    with [fqdn] and [port] taken from that server record, provided [n] was
    not registered before; the record is registered under [n] afterwards
    unless the packet also has a zero-TTL pointer record for [n], in which
    case [n] is not registered afterwards. The statement is for names that
    a plain object does not inherit; it says nothing about the others. *)
Theorem up_edge_for_new_name type reg packet n target port' :
  upCandidate type packet n ->
  lastServer packet n target port' ->
  target <> "" ->
  reg !! n = None ->
  Js.inherited n = false ->
  (exists service,
     List.filter (isUpFor n) (snd (onResponse type reg packet)) = [ServiceUp service]
     /\ name service = n /\ fqdn service = target /\ port service = port'
     /\ (~ downCandidate type packet n ->
         fst (onResponse type reg packet) !! n = Some service)
     /\ (downCandidate type packet n ->
         fst (onResponse type reg packet) !! n = None))
  /\ (~ downCandidate type packet n -> upEdge type reg packet n target port').
Proof.
  intros Hup Hsrv Htarget Hnew Hown.
  destruct (candidate_lastServer _ _ _ _ Hsrv) as [Hfqdn Hport].
  assert (Hres : resolvable packet n = true)
    by (apply resolvable_true; rewrite Hfqdn; auto).
  assert (Hfilter : List.filter (isUpFor n) (snd (onResponse type reg packet))
                    = [ServiceUp (candidate packet n)]).
  { rewrite onResponse_filter.
    now rewrite (bool_decide_eq_true_2 _ Hnew), (proj2 (mem_up _ _ _) Hup), Hres. }
  assert (Hlookup : ~ downCandidate type packet n ->
                    fst (onResponse type reg packet) !! n = Some (candidate packet n)).
  { intros Hnodown. rewrite onResponse_lookup, mem_down_false, Hnew by assumption.
    now rewrite (proj2 (mem_up _ _ _) Hup), Hres. }
  split.
  - exists (candidate packet n). rewrite candidate_name.
    do 4 (split; [auto|]). split; [exact Hlookup|].
    intros Hdown. rewrite onResponse_lookup.
    now rewrite (proj2 (mem_down _ _ _) Hdown).
  - intros Hnodown. split.
    + exists (candidate packet n). auto.
    + rewrite (Hlookup Hnodown). eauto.
Qed.

Lemma up_edge_for_new_name_witness :
  (exists service,
     List.filter (isUpFor "svcA")
       (snd (onResponse (Some Samples.daprType) ∅ Samples.announce)) = [ServiceUp service]
     /\ name service = "svcA" /\ fqdn service = "host.local" /\ port service = 50001
     /\ (~ downCandidate (Some Samples.daprType) Samples.announce "svcA" ->
         fst (onResponse (Some Samples.daprType) ∅ Samples.announce) !! "svcA"
         = Some service)
     /\ (downCandidate (Some Samples.daprType) Samples.announce "svcA" ->
         fst (onResponse (Some Samples.daprType) ∅ Samples.announce) !! "svcA" = None))
  /\ (~ downCandidate (Some Samples.daprType) Samples.announce "svcA" ->
      upEdge (Some Samples.daprType) ∅ Samples.announce "svcA" "host.local" 50001).
Proof.
  apply (up_edge_for_new_name (Some Samples.daprType) ∅ Samples.announce
           "svcA" "host.local" 50001).
  - exists Samples.pointerUp. simpl. repeat split; auto; discriminate.
  - exists [Samples.pointerUp], Samples.server,
      [Samples.textRecord; Samples.addressRecord].
    repeat split; auto; repeat constructor; discriminate.
  - discriminate.
  - apply lookup_empty.
  - reflexivity.
Defined.

(** C1 (as stated) fails in three ways: the name is already registered
    (no event, entry kept), the packet also says goodbye to the name (the
    name is not registered afterwards), or the server record has an empty
    target (no event, nothing registered). *)
Lemma up_edge_not_for_every_packet :
  (upCandidate (Some Samples.daprType) Samples.announce "svcA"
   /\ lastServer Samples.announce "svcA" "host.local" 50001
   /\ ~ upEdge (Some Samples.daprType) Samples.registryOld Samples.announce
          "svcA" "host.local" 50001)
  /\ (upCandidate (Some Samples.daprType) Samples.announceAndGoodbye "svcA"
      /\ lastServer Samples.announceAndGoodbye "svcA" "host.local" 50001
      /\ ~ upEdge (Some Samples.daprType) ∅ Samples.announceAndGoodbye
             "svcA" "host.local" 50001)
  /\ (upCandidate (Some Samples.daprType) Samples.announceNoTarget "svcA"
      /\ lastServer Samples.announceNoTarget "svcA" "" 50001
      /\ ~ upEdge (Some Samples.daprType) ∅ Samples.announceNoTarget "svcA" "" 50001).
Proof.
  repeat split.
  - exists Samples.pointerUp. simpl. repeat split; auto; discriminate.
  - exists [Samples.pointerUp], Samples.server,
      [Samples.textRecord; Samples.addressRecord].
    repeat split; auto; repeat constructor; discriminate.
  - intros [(service & Hfired & _) _]. vm_compute in Hfired. discriminate.
  - exists Samples.pointerUp. simpl. repeat split; auto; discriminate.
  - exists [Samples.pointerUp; Samples.pointerDown], Samples.server, [].
    repeat split; auto.
  - intros [_ [service Hreg]]. vm_compute in Hreg. discriminate.
  - exists Samples.pointerUp. simpl. repeat split; auto; discriminate.
  - exists [Samples.pointerUp], Samples.serverNoTarget, [].
    repeat split; auto.
  - intros [(service & Hfired & _) _]. vm_compute in Hfired. discriminate.
Qed.

(** C2. When one packet makes [n] both a resolved up candidate and a down
    candidate, the events of the packet are the up events (in record
    order) followed by the down events, [n] is not registered afterwards,
    and an [onServiceDown] fires for [n]: with the record registered under
    [n] before the packet if there was one, else with the record this packet
    resolved -- or, for a name every plain object inherits, which is never
    registered, with the inherited value. *)
Theorem up_then_down_in_one_packet type reg packet n target port' :
  upCandidate type packet n ->
  lastServer packet n target port' ->
  target <> "" ->
  downCandidate type packet n ->
  let r := onResponse type reg packet in
  fst r !! n = None
  /\ In (match reg !! n with
         | Some old => ServiceDown old
         | None =>
             if Js.inherited n
             then ServiceDownInherited n
             else ServiceDown (candidate packet n)
         end) (snd r)
  /\ exists ups downs,
       snd r = ups ++ downs
       /\ Forall (fun e => isUp e = true) ups
       /\ Forall (fun e => isDown e = true) downs
       /\ sublist ups (List.map (fun m => ServiceUp (candidate packet m))
                         (pointerTargets true type packet)).
Proof.
  intros Hup Hsrv Htarget Hdown. simpl.
  destruct (candidate_lastServer _ _ _ _ Hsrv) as [Hfqdn _].
  split; [|split].
  - rewrite onResponse_lookup. now rewrite (proj2 (mem_down _ _ _) Hdown).
  - rewrite onResponse_phases. simpl. apply in_or_app. right.
    apply pointerTargets_down in Hdown.
    pose proof (upPhase_lookup packet (pointerTargets true type packet) reg n) as Hl.
    destruct (reg !! n) as [old|] eqn:Hn.
    + now apply (downPhase_fires _ _ n).
    + rewrite (proj2 (mem_up _ _ _) Hup) in Hl. simpl in Hl.
      destruct (Js.inherited n) eqn:Hinh.
      * rewrite (resolvable_inherited _ _ Hinh) in Hl.
        now apply downPhase_fires_inherited.
      * rewrite (proj2 (resolvable_true packet n)) in Hl
          by (rewrite Hfqdn; auto).
        now apply (downPhase_fires _ _ n).
  - rewrite onResponse_phases. simpl.
    eexists _, _. split; [reflexivity|].
    split; [apply upPhase_all_up|].
    split; [apply downPhase_all_down | apply upPhase_order].
Qed.

Lemma up_then_down_in_one_packet_witness :
  let r := onResponse (Some Samples.daprType) ∅ Samples.announceAndGoodbye in
  fst r !! "svcA" = None
  /\ In (match (∅ : gmap string MdnsService) !! "svcA" with
         | Some old => ServiceDown old
         | None =>
             if Js.inherited "svcA"
             then ServiceDownInherited "svcA"
             else ServiceDown (candidate Samples.announceAndGoodbye "svcA")
         end) (snd r)
  /\ exists ups downs,
       snd r = ups ++ downs
       /\ Forall (fun e => isUp e = true) ups
       /\ Forall (fun e => isDown e = true) downs
       /\ sublist ups (List.map (fun m => ServiceUp (candidate Samples.announceAndGoodbye m))
                         (pointerTargets true (Some Samples.daprType)
                            Samples.announceAndGoodbye)).
Proof.
  apply (up_then_down_in_one_packet (Some Samples.daprType) ∅
           Samples.announceAndGoodbye "svcA" "host.local" 50001).
  - exists Samples.pointerUp. simpl. repeat split; auto; discriminate.
  - exists [Samples.pointerUp; Samples.pointerDown], Samples.server, [].
    repeat split; auto.
  - discriminate.
  - exists Samples.pointerDown. simpl. repeat split; auto.
Defined.

(** C3. When [n] is already registered, no packet fires an [onServiceUp]
    for [n], and the entry under [n] is never replaced: afterwards it is
    still the old one, unless the packet says goodbye to [n], in which case
    there is none. *)
Theorem known_name_is_not_refired type reg packet n old :
  reg !! n = Some old ->
  let r := onResponse type reg packet in
  List.filter (isUpFor n) (snd r) = []
  /\ (forall service, fst r !! n = Some service -> service = old)
  /\ (~ downCandidate type packet n -> fst r !! n = Some old).
Proof.
  intros Hold. simpl. split; [|split].
  - rewrite onResponse_filter.
    now rewrite (bool_decide_eq_false_2 (reg !! n = None)) by congruence.
  - intros service. rewrite onResponse_lookup, Hold.
    destruct (bool_decide _); congruence.
  - intros Hno. now rewrite onResponse_lookup, mem_down_false, Hold.
Qed.

Lemma known_name_is_not_refired_witness :
  let r := onResponse (Some Samples.daprType) Samples.registryOld Samples.announce in
  List.filter (isUpFor "svcA") (snd r) = []
  /\ (forall service, fst r !! "svcA" = Some service -> service = Samples.serviceOld)
  /\ (~ downCandidate (Some Samples.daprType) Samples.announce "svcA" ->
      fst r !! "svcA" = Some Samples.serviceOld).
Proof.
  apply (known_name_is_not_refired (Some Samples.daprType) Samples.registryOld
           Samples.announce "svcA" Samples.serviceOld).
  reflexivity.
Defined.

Lemma candidate_without_server packet n :
  (forall answer, In answer (answers packet) -> Dns.name answer = n ->
                  isServerAnswer answer = false) ->
  fqdn (candidate packet n) = "".
Proof.
  intros Hno. unfold candidate, resolve.
  rewrite (fold_preserves setAddress fqdn) by apply setAddress_fqdn.
  rewrite (fold_preserves setText fqdn) by apply setText_fqdn.
  simpl.
  assert (Hnil : List.filter isServerAnswer (List.filter (ownedBy n) (answers packet)) = []).
  { induction (answers packet) as [|a l IH]; simpl; [reflexivity|].
    destruct (ownedBy n a) eqn:Ho; simpl.
    - unfold ownedBy in Ho. apply String.eqb_eq in Ho.
      rewrite (Hno a) by (simpl; auto). apply IH. intros; apply Hno; simpl; auto.
    - apply IH. intros; apply Hno; simpl; auto. }
  now rewrite Hnil.
Qed.

Lemma onResponse_resolved type reg packet :
  resolvedRegistry reg -> resolvedRegistry (fst (onResponse type reg packet)).
Proof.
  intros Hreg n service. rewrite onResponse_phases. simpl. intros Hn.
  apply downPhase_sub in Hn. revert Hn. now apply upPhase_resolved.
Qed.

Lemma onResponse_keyed type reg packet :
  keyedByName reg -> keyedByName (fst (onResponse type reg packet)).
Proof.
  intros Hreg n service. rewrite onResponse_phases. simpl. intros Hn.
  apply downPhase_sub in Hn. revert Hn. now apply upPhase_keyed.
Qed.

Lemma empty_resolved : resolvedRegistry ∅.
Proof. intros n service. now rewrite lookup_empty. Qed.

Lemma empty_keyed : keyedByName ∅.
Proof. intros n service. now rewrite lookup_empty. Qed.

Lemma reachable_resolved c : reachable c -> resolvedRegistry (knownServices c).
Proof.
  induction 1; simpl; auto using empty_resolved, onResponse_resolved.
Qed.

Lemma reachable_keyed c : reachable c -> keyedByName (knownServices c).
Proof.
  induction 1; simpl; auto using empty_keyed, onResponse_keyed.
Qed.

(** C4. Every record in the registry of a client has a non-empty [fqdn]:
    this holds in every reachable state, is preserved by the processing of
    any packet and established by [stop()]; every [onServiceUp] carries a
    non-empty [fqdn]; and a name whose candidate ends the scans with an
    empty [fqdn] -- in particular one with no server record of its own,
    whatever text and address records the packet has -- is neither
    registered nor announced by that packet. *)
Theorem registry_holds_resolved_records_only :
  (forall c, reachable c -> resolvedRegistry (knownServices c))
  /\ (forall type reg packet,
        resolvedRegistry reg -> resolvedRegistry (fst (onResponse type reg packet)))
  /\ (forall c, resolvedRegistry (knownServices (stop c)))
  /\ (forall type reg packet service,
        In (ServiceUp service) (snd (onResponse type reg packet)) -> fqdn service <> "")
  /\ (forall type reg packet n,
        fqdn (candidate packet n) = "" -> reg !! n = None ->
        fst (onResponse type reg packet) !! n = None
        /\ List.filter (isUpFor n) (snd (onResponse type reg packet)) = [])
  /\ (forall packet n,
        (forall answer, In answer (answers packet) -> Dns.name answer = n ->
                        isServerAnswer answer = false) ->
        fqdn (candidate packet n) = "").
Proof.
  split; [exact reachable_resolved|].
  split; [exact onResponse_resolved|].
  split; [intros c; exact empty_resolved|].
  split; [|split; [|exact candidate_without_server]].
  - intros type reg packet service. rewrite onResponse_phases. simpl.
    intros Hin. apply in_app_or in Hin as [Hin|Hin].
    + destruct (upPhase_fired _ _ _ _ Hin) as (m & _ & [= ->] & Hf & _). exact Hf.
    + destruct (downPhase_fired _ _ _ Hin) as (m & _ & [(s & [=] & _)|[[=] _]]).
  - intros type reg packet n Hf Hnew. split.
    + rewrite onResponse_lookup, Hnew, (resolvable_unresolved _ _ Hf).
      rewrite andb_false_r. now destruct (bool_decide _).
    + rewrite onResponse_filter, (resolvable_unresolved _ _ Hf).
      now rewrite andb_false_r.
Qed.

Lemma registry_holds_resolved_records_only_witness :
  resolvedRegistry
    (knownServices
       (fst (receive Samples.announceNoServer
               (fst (receive Samples.announce (start Samples.daprType init))))))
  /\ (fst (onResponse (Some Samples.daprType) ∅ Samples.announceNoServer) !! "svcA" = None
      /\ List.filter (isUpFor "svcA")
           (snd (onResponse (Some Samples.daprType) ∅ Samples.announceNoServer)) = []).
Proof.
  split.
  - apply (proj1 registry_holds_resolved_records_only).
    repeat constructor.
  - apply (proj1 (proj2 (proj2 (proj2 (proj2 registry_holds_resolved_records_only))))).
    + reflexivity.
    + apply lookup_empty.
Defined.

(** C5 (the code at the failing input, and in general). A goodbye for a
    name that is not registered is not always ignored: the down loop tests
    [this.knownServices[name]], which is truthy for every name a plain
    object inherits, so the goodbye packet for [constructor] fires
    [onServiceDown] with the inherited value, on an empty registry, and so
    does every packet with a zero-TTL pointer record for an inherited name
    that has no entry. For all other names the claim holds: the loop body
    changes neither the registry nor the trace; if the packet does not also
    resolve [n] as an up candidate, [n] stays unregistered and no event of
    the packet is for [n]; and a packet with no up candidate, all of whose
    down candidates are such names without an entry, fires nothing and
    leaves the registry as it was. *)
Theorem goodbye_to_an_inherited_name_fires :
  onResponse (Some Samples.daprType) ∅ Samples.goodbyeInherited
  = (∅, [ServiceDownInherited "constructor"])
  /\ (forall type reg packet n,
        Js.inherited n = true ->
        downCandidate type packet n ->
        reg !! n = None ->
        In (ServiceDownInherited n) (snd (onResponse type reg packet))
        /\ fst (onResponse type reg packet) !! n = None)
  /\ (forall reg ev n,
        Js.inherited n = false -> reg !! n = None -> downStep (reg, ev) n = (reg, ev))
  /\ (forall type reg packet n,
        Js.inherited n = false ->
        keyedByName reg ->
        downCandidate type packet n ->
        reg !! n = None ->
        ~ (upCandidate type packet n /\ fqdn (candidate packet n) <> "") ->
        fst (onResponse type reg packet) !! n = None
        /\ forall e, In e (snd (onResponse type reg packet)) ->
                     e <> ServiceDownInherited n
                     /\ forall service, eventService e = Some service ->
                                        name service <> n)
  /\ (forall type reg packet,
        (forall n, ~ upCandidate type packet n) ->
        (forall n, downCandidate type packet n ->
                   reg !! n = None /\ Js.inherited n = false) ->
        onResponse type reg packet = (reg, [])).
Proof.
  split; [vm_compute; reflexivity|].
  split; [|split; [|split]].
  - intros type reg packet n Hinh Hdown Hnew. split.
    + rewrite onResponse_phases. simpl. apply in_or_app. right.
      apply downPhase_fires_inherited;
        [now apply pointerTargets_down | | assumption].
      now rewrite upPhase_lookup, Hnew, (resolvable_inherited _ _ Hinh), andb_false_r.
    + rewrite onResponse_lookup. now rewrite (proj2 (mem_down _ _ _) Hdown).
  - intros reg ev n Hinh Hn. unfold downStep. simpl. now rewrite Hn, Hinh.
  - intros type reg packet n Hinh Hkeyed Hdown Hnew Hnoup.
    assert (Hafter : fst (upPhase packet (pointerTargets true type packet) reg) !! n = None).
    { rewrite upPhase_lookup, Hnew.
      destruct (bool_decide _) eqn:Hmem; [|reflexivity].
      destruct (resolvable packet n) eqn:Hf; [|reflexivity].
      exfalso. apply Hnoup. apply resolvable_true in Hf as [Hf _].
      split; [now apply mem_up | assumption]. }
    split.
    + rewrite onResponse_lookup. now rewrite (proj2 (mem_down _ _ _) Hdown).
    + intros e. rewrite onResponse_phases. simpl. intros Hin.
      apply in_app_or in Hin as [Hin|Hin].
      * destruct (upPhase_fired _ _ _ _ Hin) as (m & Hm & -> & Hf & _).
        split; [discriminate|]. simpl. intros service [= <-].
        rewrite candidate_name. intros ->.
        apply Hnoup. split; [now apply pointerTargets_up | assumption].
      * destruct (downPhase_fired _ _ _ Hin) as (m & _ & [(s & -> & Hs)|[-> Hm]]).
        -- split; [discriminate|]. simpl. intros service [= <-] Hname.
           rewrite (upPhase_keyed _ _ _ Hkeyed _ _ Hs) in Hname. subst m. congruence.
        -- split; [intros [= ->]; congruence|]. simpl. discriminate.
  - intros type reg packet Hnoup Hnodown.
    rewrite onResponse_phases. simpl.
    assert (Hups : pointerTargets true type packet = []).
    { destruct (pointerTargets true type packet) as [|m l] eqn:Hl; [reflexivity|].
      exfalso. apply (Hnoup m). apply pointerTargets_up. rewrite Hl. now left. }
    rewrite Hups, upPhase_nil. simpl.
    rewrite downPhase_absent; [reflexivity|].
    intros n Hn. apply Hnodown. now apply pointerTargets_down.
Qed.

Lemma goodbye_to_an_inherited_name_fires_witness :
  (In (ServiceDownInherited "constructor")
     (snd (onResponse (Some Samples.daprType) Samples.registryOld
             Samples.goodbyeInherited))
   /\ fst (onResponse (Some Samples.daprType) Samples.registryOld
             Samples.goodbyeInherited) !! "constructor" = None)
  /\ downStep (∅, []) "svcA" = (∅, [])
  /\ onResponse (Some Samples.daprType) ∅ Samples.goodbye = (∅, []).
Proof.
  split; [|split].
  - apply (proj1 (proj2 goodbye_to_an_inherited_name_fires)).
    + reflexivity.
    + exists Samples.pointerDownInherited. simpl. repeat split; auto.
    + reflexivity.
  - apply (proj1 (proj2 (proj2 goodbye_to_an_inherited_name_fires)));
      [reflexivity | apply lookup_empty].
  - apply (proj2 (proj2 (proj2 (proj2 goodbye_to_an_inherited_name_fires)))).
    + intros n (a & Ha & _ & Httl & _). simpl in Ha.
      destruct Ha as [<-|[]]. now apply Httl.
    + intros n (a & Ha & _ & _ & Hd). simpl in Ha. destruct Ha as [<-|[]].
      simpl in Hd. injection Hd as <-. split; [apply lookup_empty | reflexivity].
Defined.

End ClientTheorems.

(** ** Splitting a TXT entry *)

Module SplitFacts.

Import Text.

Lemma split_nonempty c s : split c s <> [].
Proof.
  destruct s as [|a r]; simpl; [discriminate|].
  destruct (Ascii.eqb a c); [discriminate|].
  destruct (split c r); discriminate.
Qed.

(** A single piece is the whole string, and it has no separator. *)
Lemma split_one c : forall s v, split c s = [v] -> s = v /\ hasChar c s = false.
Proof.
  induction s as [|a r IH]; intros v; simpl.
  - intros [= <-]. auto.
  - destruct (Ascii.eqb a c) eqn:Hac.
    + intros [= _ Hr]. now destruct (split_nonempty c r).
    + destruct (split c r) as [|piece pieces] eqn:Hr;
        [now destruct (split_nonempty c r)|].
      intros [= <- ->]. destruct (IH _ eq_refl) as [-> Hno]. auto.
Qed.

Lemma split_none c : forall s, hasChar c s = false -> split c s = [s].
Proof.
  induction s as [|a r IH]; simpl; [reflexivity|].
  intros Hno. apply orb_false_iff in Hno as [Hac Hr].
  now rewrite Hac, (IH Hr).
Qed.

(** Two pieces: the string is the two pieces around one separator. *)
Lemma split_two c : forall s k v,
  split c s = [k; v]
  <-> s = (k ++ String c v)%string /\ hasChar c k = false /\ hasChar c v = false.
Proof.
  induction s as [|a r IH]; intros k v; simpl.
  - split; [discriminate|]. intros (H & _). destruct k; discriminate.
  - destruct (Ascii.eqb a c) eqn:Hac.
    + apply Ascii.eqb_eq in Hac. subst a. split.
      * intros [= <- Hr]. apply split_one in Hr as [-> Hno]. auto.
      * intros (Hs & Hk & Hv). destruct k as [|b k]; simpl in *.
        -- injection Hs as ->. now rewrite (split_none _ _ Hv).
        -- injection Hs as <- _. now rewrite Ascii.eqb_refl in Hk.
    + remember (split c r) as ps eqn:Hr in |- *. symmetry in Hr.
      destruct ps as [|piece pieces]; [now destruct (split_nonempty c r)|].
      split.
      * intros [= <- ->]. apply (proj1 (IH _ _)) in Hr as (-> & Hk & Hv).
        simpl. rewrite Hac. auto.
      * intros (Hs & Hk & Hv). destruct k as [|b k]; simpl in *.
        -- injection Hs as -> _. now rewrite Ascii.eqb_refl in Hac.
        -- injection Hs as <- ->. apply orb_false_iff in Hk as [_ Hk].
           assert (Hgoal : split c (k ++ String c v) = [k; v])
             by (apply IH; auto).
           rewrite Hgoal in Hr. now injection Hr as <- <-.
Qed.

End SplitFacts.

(** ** The mDNS-backed provider *)

Module MdnsProviderTheorems.

Import App MdnsProvider SplitFacts.

Lemma entry_split key value :
  Text.hasChar "="%char key = false ->
  Text.hasChar "="%char value = false ->
  Text.split "="%char (entry key value) = [key; value].
Proof. intros Hk Hv. apply split_two. auto. Qed.

Lemma split_entry e k v :
  Text.split "="%char e = [k; v] -> e = entry k v /\ Text.hasChar "="%char v = false.
Proof. intros H. apply split_two in H as (-> & _ & Hv). auto. Qed.

(** One step of the lookup of a key in the parsed entries. *)
Lemma textValue_cons key e text :
  textValue key (parsed (e :: text))
  = match Text.split "="%char e with
    | [k; v] => if String.eqb k key then Some v else textValue key (parsed text)
    | _ => textValue key (parsed text)
    end.
Proof.
  unfold parsed, textValue. simpl.
  destruct (Text.split "="%char e) as [|k [|v [|w l]]]; simpl; try reflexivity.
  now destruct (String.eqb k key).
Qed.

(** The lookup finds the value of the first entry [key=value]. *)
Lemma textValue_firstValue key text value :
  Text.hasChar "="%char key = false ->
  textValue key (parsed text) = Some value <-> firstValue key text value.
Proof.
  intros Hkey. split.
  - revert value. induction text as [|e text IH]; intros value.
    + discriminate.
    + rewrite textValue_cons.
      destruct (Text.split "="%char e) as [|k [|v [|w l]]] eqn:He.
      1, 2, 4: intros Hv; destruct (IH _ Hv) as (before & after & -> & Hno & Hbefore);
        exists (e :: before), after; repeat split; auto;
        constructor; auto; intros w' Hw' ->;
        rewrite (entry_split _ _ Hkey Hw') in He; discriminate.
      destruct (String.eqb k key) eqn:Hk.
      * apply String.eqb_eq in Hk. subst k. intros [= <-].
        destruct (split_entry _ _ _ He) as [-> Hno].
        exists [], text. repeat split; auto.
      * intros Hv. destruct (IH _ Hv) as (before & after & -> & Hno & Hbefore).
        exists (e :: before), after. repeat split; auto.
        constructor; auto. intros w' Hw' ->.
        rewrite (entry_split _ _ Hkey Hw') in He. injection He as <- _.
        now rewrite String.eqb_refl in Hk.
  - intros (before & after & -> & Hno & Hbefore).
    induction before as [|e before IH]; simpl.
    + rewrite textValue_cons, (entry_split _ _ Hkey Hno).
      now rewrite String.eqb_refl.
    + inversion_clear Hbefore as [|? ? He Hrest].
      rewrite textValue_cons.
      destruct (Text.split "="%char e) as [|k [|v [|w l]]] eqn:Hs; auto.
      destruct (String.eqb k key) eqn:Hk; auto.
      apply String.eqb_eq in Hk. subst k.
      destruct (split_entry _ _ _ Hs) as [-> Hv]. now destruct (He v Hv).
Qed.

(** C6 (the code at the failing input). With three applications known and
    a down event for the first of them, [splice(index)] empties the list,
    where the removal of the one matched element would leave the other
    two. *)
Theorem down_event_truncates_the_list :
  toApplication Samples.serviceA = Some Samples.myapp
  /\ findIndex (sameAppId Samples.myapp) (applications Samples.threeApplications) = Some 0%nat
  /\ applications (onServiceDown Samples.serviceA Samples.threeApplications) = []
  /\ removeOne 0 (applications Samples.threeApplications)
     = [Samples.orders; Samples.billing].
Proof. repeat split; vm_compute; reflexivity. Qed.

(** What the down listener does to the list in general: it keeps the
    elements before the first match and drops the match and everything
    after it. *)
Lemma onServiceDown_applications service p :
  applications (onServiceDown service p)
  = match toApplication service with
    | Some application =>
        match findIndex (sameAppId application) (applications p) with
        | Some index => take index (applications p)
        | None => applications p
        end
    | None => applications p
    end.
Proof.
  unfold onServiceDown.
  destruct (toApplication service) as [a|]; [|reflexivity].
  now destruct (findIndex (sameAppId a) (applications p)).
Qed.

(** C7 (the code at the failing input, and in general). The down listener
    fires the change notification twice when it removes something, and
    once when it removes nothing; with one application known and a down
    event for it, two notifications fire for the one removal. *)
Theorem down_event_notifies_twice :
  (forall service p,
     changes (onServiceDown service p)
     = match toApplication service with
       | Some application =>
           match findIndex (sameAppId application) (applications p) with
           | Some _ => (2 + changes p)%nat
           | None => (1 + changes p)%nat
           end
       | None => (1 + changes p)%nat
       end)
  /\ applications (onServiceDown Samples.serviceA Samples.oneApplication) = []
  /\ changes (onServiceDown Samples.serviceA Samples.oneApplication) = 2%nat.
Proof.
  split; [|split; vm_compute; reflexivity].
  intros service p. unfold onServiceDown.
  destruct (toApplication service) as [a|]; [|reflexivity].
  now destruct (findIndex (sameAppId a) (applications p)).
Qed.

(** The up listener, for comparison, fires exactly once for each insert
    or update, and not at all when the service does not translate. *)
Lemma onServiceUp_changes service p :
  changes (onServiceUp service p)
  = match toApplication service with
    | Some _ => S (changes p)
    | None => changes p
    end.
Proof. unfold onServiceUp. now destruct (toApplication service). Qed.

(** C8 (as amended). A service translates to a descriptor exactly when
    the first TXT entry of the form [appId=value] and the first of the form
    [httpPort=value] (entries with a single equals sign) both have a
    non-empty value; the descriptor carries that application id and
    [parseInt] of the port value, whatever that is ([NaN] included). *)
Theorem translation_needs_both_keys service application :
  toApplication service = Some application
  <-> exists id portText,
        firstValue "appId" (Client.text service) id /\ id <> ""
        /\ firstValue "httpPort" (Client.text service) portText /\ portText <> ""
        /\ application = {| appId := id; httpPort := Text.parseInt portText;
                            pid := None |}.
Proof.
  unfold toApplication.
  pose proof (textValue_firstValue "appId" (Client.text service)) as Hid.
  pose proof (textValue_firstValue "httpPort" (Client.text service)) as Hport.
  destruct (textValue "appId" (parsed (Client.text service))) as [id|];
    destruct (textValue "httpPort" (parsed (Client.text service))) as [portText|];
    simpl.
  - destruct (Js.truthyString id) eqn:Hi; destruct (Js.truthyString portText) eqn:Hp;
      simpl; split.
    + intros [= <-]. exists id, portText.
      apply JsFacts.truthyString_true in Hi, Hp.
      repeat split; auto; [apply Hid | apply Hport]; auto.
    + intros (i & q & Hi' & _ & Hq' & _ & ->).
      apply Hid in Hi'; [|reflexivity]. apply Hport in Hq'; [|reflexivity].
      now injection Hi' as <-; injection Hq' as <-.
    + discriminate.
    + intros (i & q & _ & _ & Hq' & Hne & _).
      apply Hport in Hq'; [|reflexivity]. injection Hq' as <-.
      apply JsFacts.truthyString_false in Hp. contradiction.
    + discriminate.
    + intros (i & q & Hi' & Hne & _).
      apply Hid in Hi'; [|reflexivity]. injection Hi' as <-.
      apply JsFacts.truthyString_false in Hi. contradiction.
    + discriminate.
    + intros (i & q & Hi' & Hne & _).
      apply Hid in Hi'; [|reflexivity]. injection Hi' as <-.
      apply JsFacts.truthyString_false in Hi. contradiction.
  - rewrite andb_false_r. split; [discriminate|].
    intros (i & q & _ & _ & Hq' & _). apply Hport in Hq'; [discriminate|reflexivity].
  - split; [discriminate|].
    intros (i & q & Hi' & _). apply Hid in Hi'; [discriminate|reflexivity].
  - split; [discriminate|].
    intros (i & q & Hi' & _). apply Hid in Hi'; [discriminate|reflexivity].
Qed.

Lemma translation_needs_both_keys_witness :
  toApplication Samples.serviceA = Some Samples.myapp.
Proof.
  apply (proj2 (translation_needs_both_keys Samples.serviceA Samples.myapp)).
  exists "myapp", "3501".
  split; [exists [], ["httpPort=3501"]; repeat split; auto|].
  split; [discriminate|].
  split; [|split; [discriminate|reflexivity]].
  exists ["appId=myapp"], []. repeat split; auto.
Defined.

(** C8 (as stated) fails: a service whose [httpPort] entry is not a number
    still translates, to a descriptor whose port is [NaN]. *)
Lemma unparseable_port_is_not_excluded :
  toApplication Samples.serviceBadPort
  = Some {| appId := "myapp"; httpPort := Text.NaN; pid := None |}
  /\ ~ documentedRule Samples.serviceBadPort.
Proof.
  split; [reflexivity|].
  intros [Hrule _].
  destruct Hrule as [_ (v & Hin & n & _ & Hparse)]; [eexists; reflexivity|].
  simpl in Hin. destruct Hin as [Hv|[Hv|[]]].
  - discriminate.
  - cbv in Hv. injection Hv as <-. discriminate.
Qed.

End MdnsProviderTheorems.

(** ** The pattern matcher *)

Module RegExpFacts.

Import RegExp.

Lemma append_cons a (x y : string) : (String a x ++ y)%string = String a (x ++ y)%string.
Proof. reflexivity. Qed.

Lemma append_nil (y : string) : ("" ++ y)%string = y.
Proof. reflexivity. Qed.

Lemma stripPrefix_app l : forall x, stripPrefix l (l ++ x)%string = Some x.
Proof.
  induction l as [|a l IH]; intros x; [reflexivity|].
  rewrite append_cons. simpl. now rewrite Ascii.eqb_refl.
Qed.

Lemma stripPrefix_prefix l : forall s rest,
  stripPrefix l s = Some rest -> String.prefix l s = true.
Proof.
  induction l as [|a l IH]; intros [|b s] rest; simpl; try discriminate; auto.
  destruct (Ascii.eqb a b) eqn:Hab; [|discriminate].
  apply Ascii.eqb_eq in Hab. subst b. intros Hs.
  destruct (ascii_dec a a); [eauto | contradiction].
Qed.

Lemma prefix_app a : forall b s,
  String.prefix (a ++ b)%string s = true -> String.prefix a s = true.
Proof.
  induction a as [|c a IH]; intros b [|d s]; try reflexivity.
  - rewrite append_cons. simpl. discriminate.
  - rewrite append_cons. simpl. destruct (ascii_dec c d); [apply IH | discriminate].
Qed.

Lemma includes_app a b : forall s,
  Text.includes (a ++ b)%string s = true -> Text.includes a s = true.
Proof.
  induction s as [|d s IH]; cbn [Text.includes]; intros H;
    apply orb_true_iff in H as [H|H].
  - apply prefix_app in H. now rewrite H.
  - discriminate.
  - apply prefix_app in H. now rewrite H.
  - rewrite (IH H). apply orb_true_r.
Qed.

(** A pattern that starts with a literal only matches where the literal
    occurs. *)
Lemma exec_literal l re : forall s groups,
  exec (Lit l :: re) s = Some groups -> Text.includes l s = true.
Proof.
  induction s as [|d s IH]; intros groups.
  - cbn [exec matchHere Text.includes].
    destruct (stripPrefix l "") as [rest|] eqn:Hs; [|discriminate].
    intros _. now rewrite (stripPrefix_prefix _ _ _ Hs).
  - cbn [exec matchHere].
    destruct (stripPrefix l (String d s)) as [rest|] eqn:Hs.
    + intros _. cbn [Text.includes]. now rewrite (stripPrefix_prefix _ _ _ Hs).
    + intros H. cbn [Text.includes]. rewrite (IH _ H). apply orb_true_r.
Qed.

Lemma matchHere_opt c s : matchHere [Opt c] s = Some [].
Proof. destruct s as [|d s]; simpl; [reflexivity|]. now destruct (Ascii.eqb d c). Qed.

(** A group followed by an optional character takes the longest run. *)
Lemma matchHere_group_opt class c s :
  matchHere [Group class; Opt c] s
  = match runLength class s with
    | O => None
    | S m => Some [takeChars (S m) s]
    end.
Proof.
  cbn [matchHere]. destruct (runLength class s) as [|m]; [reflexivity|].
  destruct (dropChars (S m) s) as [|d rest]; [reflexivity|].
  now destruct (Ascii.eqb d c).
Qed.

Lemma exec_here re s groups :
  matchHere re s = Some groups -> exec re s = Some groups.
Proof. intros H. destruct s; simpl; now rewrite H. Qed.

(** A match somewhere in the string makes [exec] succeed. *)
Lemma exec_complete re s groups :
  matchHere re s = Some groups ->
  forall before, exists groups', exec re (before ++ s)%string = Some groups'.
Proof.
  intros Hm. induction before as [|d before IH].
  - exists groups. now apply exec_here.
  - rewrite append_cons. cbn [exec].
    destruct (matchHere re (String d (before ++ s))); eauto.
Qed.

(** What [exec] returns is a match at some position of the string. *)
Lemma exec_sound re : forall s groups,
  exec re s = Some groups ->
  exists before suffix, s = (before ++ suffix)%string /\ matchHere re suffix = Some groups.
Proof.
  induction s as [|d s IH]; intros groups; cbn [exec].
  - destruct (matchHere re "") eqn:Hm; [|discriminate].
    intros [= <-]. exists "", "". auto.
  - destruct (matchHere re (String d s)) eqn:Hm.
    + intros [= <-]. exists "", (String d s). auto.
    + intros H. destruct (IH _ H) as (before & suffix & -> & Hs).
      exists (String d before), suffix. auto.
Qed.

Lemma takeChars_run class : forall s m,
  runLength class s = S m -> takeChars (S m) s <> "".
Proof. intros [|d s] m; simpl; [discriminate|]. discriminate. Qed.

Lemma runLength_app class : forall id rest,
  Text.allChars class id = true -> id <> "" ->
  exists m, runLength class (id ++ rest)%string = S m.
Proof.
  intros [|d id] rest Hall Hne; [contradiction|].
  rewrite append_cons. simpl. unfold Text.allChars in Hall. simpl in Hall.
  apply andb_true_iff in Hall as [Hd _]. rewrite Hd. eauto.
Qed.

End RegExpFacts.

(** ** The process-backed provider: command lines *)

Module CommandLineTheorems.

Import App RegExp RegExpFacts ProcessProvider.

Lemma matchHere_lit l re s :
  matchHere (Lit l :: re) s
  = match stripPrefix l s with
    | Some rest => matchHere re rest
    | None => None
    end.
Proof. reflexivity. Qed.

Lemma matchHere_opt_cons c re s :
  matchHere (Opt c :: re) s
  = match s with
    | String c' rest =>
        if Ascii.eqb c' c
        then match matchHere re rest with
             | Some groups => Some groups
             | None => matchHere re s
             end
        else matchHere re s
    | EmptyString => matchHere re s
    end.
Proof. reflexivity. Qed.

(** A match of a flag pattern captures one non-empty group. *)
Lemma flag_match_shape l c class s groups :
  matchHere [Lit l; Opt c; Group class; Opt c] s = Some groups ->
  exists g, groups = [g] /\ g <> "".
Proof.
  rewrite matchHere_lit. destruct (stripPrefix l s) as [r|]; [|discriminate].
  rewrite matchHere_opt_cons.
  assert (Hgroup : forall x, matchHere [Group class; Opt c] x = Some groups ->
                             exists g, groups = [g] /\ g <> "").
  { intros x. rewrite matchHere_group_opt.
    destruct (runLength class x) as [|m] eqn:Hrun; [discriminate|].
    intros [= <-]. eexists. split; [reflexivity|]. now apply (takeChars_run class). }
  destruct r as [|d r]; [apply Hgroup|].
  destruct (Ascii.eqb d c); [|apply Hgroup].
  destruct (matchHere [Group class; Opt c] r) eqn:Hr; [|apply Hgroup].
  intros [= <-]. now apply (Hgroup r).
Qed.

(** The flag pattern matches where the flag stands. *)
Lemma flag_match_here l c class q id rest :
  q = "" \/ q = String c "" ->
  id <> "" ->
  Text.allChars class id = true ->
  exists groups,
    matchHere [Lit l; Opt c; Group class; Opt c] (l ++ q ++ id ++ rest)%string
    = Some groups.
Proof.
  intros Hq Hne Hall.
  destruct (runLength_app class id rest Hall Hne) as [m Hrun].
  assert (Hgroup : matchHere [Group class; Opt c] (id ++ rest)%string
                   = Some [takeChars (S m) (id ++ rest)%string])
    by now rewrite matchHere_group_opt, Hrun.
  rewrite matchHere_lit, stripPrefix_app, matchHere_opt_cons.
  destruct Hq as [-> | ->].
  - rewrite append_nil. destruct (id ++ rest)%string as [|d x] eqn:Hx;
      [rewrite Hgroup; eauto|].
    destruct (Ascii.eqb d c); [|rewrite Hgroup; eauto].
    destruct (matchHere [Group class; Opt c] x); [eauto | rewrite Hgroup; eauto].
  - rewrite append_cons, append_nil, Ascii.eqb_refl, Hgroup. eauto.
Qed.

Lemma getAppId_without_flag cmd :
  Text.includes "--app-id" cmd = false -> getAppId cmd = None.
Proof.
  intros Hno. unfold getAppId, appIdRegEx.
  destruct (exec _ cmd) as [groups|] eqn:He; [|reflexivity].
  apply exec_literal in He.
  apply (includes_app "--app-id" " ") in He. congruence.
Qed.

Lemma getAppId_with_flag cmd :
  hasAppIdFlag cmd -> exists id, id <> "" /\ getAppId cmd = Some id.
Proof.
  intros (before & q & id & rest & -> & Hq & Hne & Hall).
  destruct (flag_match_here "--app-id " Text.doubleQuote Text.isAppIdChar
              q id rest Hq Hne Hall) as [groups Hm].
  destruct (exec_complete _ _ _ Hm before) as [groups' He].
  unfold getAppId, appIdRegEx. rewrite He.
  destruct (exec_sound _ _ _ He) as (b & suffix & _ & Hs).
  destruct (flag_match_shape _ _ _ _ _ Hs) as (g & -> & Hg).
  exists g. auto.
Qed.

Lemma getHttpPort_without_flag cmd :
  Text.includes "--dapr-http-port" cmd = false -> getHttpPort cmd = Text.Int 3500.
Proof.
  intros Hno. unfold getHttpPort, portRegEx.
  destruct (exec _ cmd) as [groups|] eqn:He; [|reflexivity].
  apply exec_literal in He.
  apply (includes_app "--dapr-http-port" " ") in He. congruence.
Qed.

(** C9 (as amended). The command line [daprd --app-id "orders"
    --dapr-http-port "3600"] yields the application [orders] on port 3600;
    a line that does not contain [--app-id] yields no descriptor; and a
    line that carries the flag as the pattern wants it ([--app-id], a
    space, an optional double quote, an identifier character) and does not
    contain [--dapr-http-port] yields a descriptor with port 3500. *)
Theorem command_line_translation :
  (forall pid,
     toApplication (Some Samples.ordersCommand) pid
     = Some {| appId := "orders"; httpPort := Text.Int 3600; pid := Some pid |})
  /\ (forall cmd pid,
        Text.includes "--app-id" cmd = false -> toApplication (Some cmd) pid = None)
  /\ (forall cmd pid,
        hasAppIdFlag cmd ->
        Text.includes "--dapr-http-port" cmd = false ->
        exists id, id <> ""
                   /\ toApplication (Some cmd) pid
                      = Some {| appId := id; httpPort := Text.Int 3500;
                                pid := Some pid |}).
Proof.
  split; [|split].
  - intros pid. reflexivity.
  - intros cmd pid Hno. unfold toApplication.
    rewrite (getAppId_without_flag _ Hno). now destruct (Js.truthyString cmd).
  - intros cmd pid Hflag Hno.
    destruct (getAppId_with_flag _ Hflag) as (id & Hid & Hget).
    exists id. split; [assumption|]. unfold toApplication.
    rewrite Hget, (getHttpPort_without_flag _ Hno).
    rewrite (proj2 (JsFacts.truthyString_true id) Hid).
    destruct cmd; [discriminate Hget | reflexivity].
Qed.

Lemma command_line_translation_witness :
  toApplication (Some "daprd --dapr-http-port 3600") 42 = None
  /\ exists id, id <> ""
                /\ toApplication (Some Samples.ordersNoPort) 42
                   = Some {| appId := id; httpPort := Text.Int 3500; pid := Some 42 |}.
Proof.
  split.
  - apply (proj1 (proj2 command_line_translation)). reflexivity.
  - apply (proj2 (proj2 command_line_translation)).
    + exists "daprd ", "", "orders", "". repeat split; auto; discriminate.
    + reflexivity.
Defined.

(** C9 (as stated) fails: [daprd --app-id=orders] contains [--app-id] and
    lacks [--dapr-http-port], and yields no descriptor. *)
Lemma flag_with_equals_sign_yields_nothing :
  Text.includes "--app-id" Samples.ordersEquals = true
  /\ Text.includes "--dapr-http-port" Samples.ordersEquals = false
  /\ toApplication (Some Samples.ordersEquals) 42 = None
  /\ ~ documentedDefault Samples.ordersEquals 42.
Proof.
  repeat split.
  intros Hclaim. destruct Hclaim as [id Hid]; [reflexivity | reflexivity |].
  vm_compute in Hid. discriminate.
Qed.

End CommandLineTheorems.

(** ** The process-backed provider: a refresh that fails *)

Module RefreshTheorems.

Import App ProcessProvider.

Lemma refreshApplications_wedged who p s :
  wedged p s ->
  wedged p (refreshApplications who s)
  /\ refreshApplications who s
     = {| applications := applications s; currentRefresh := Some p;
          promises := promises s; suspended := suspended s ++ [(who, p)];
          changes := changes s; outcomes := outcomes s |}.
Proof.
  intros (Hcur & Hrej & Hpend & Hwait). unfold refreshApplications. rewrite Hcur.
  split; [|reflexivity].
  repeat split; simpl; auto.
  apply Forall_app. split; [assumption|]. now repeat constructor.
Qed.

(** One action in a wedged provider: it stays wedged, nothing is listed,
    the applications and the notifications stay as they were, and no call
    completes. *)
Lemma wedged_step p a s s' :
  wedged p s -> step a s = Some s' ->
  wedged p s'
  /\ applications s' = applications s
  /\ promises s' = promises s
  /\ changes s' = changes s
  /\ exists extra, outcomes s' = outcomes s ++ extra
                   /\ Forall (fun o => isCompleted o = false) extra.
Proof.
  intros Hw Hstep. pose proof Hw as (Hcur & Hrej & Hpend & Hwait).
  destruct a as [|refresh|q processes|q|i]; simpl in Hstep.
  - injection Hstep as <-.
    destruct (refreshApplications_wedged Timer p s Hw) as [Hw' Heq].
    split; [assumption|]. rewrite Heq. simpl.
    do 3 (split; [reflexivity|]). exists []. now rewrite app_nil_r.
  - injection Hstep as <-. unfold getApplications.
    destruct (negb _ || refresh).
    + destruct (refreshApplications_wedged (GetApplications refresh) p s Hw)
        as [Hw' Heq].
      split; [assumption|]. rewrite Heq. simpl.
      do 3 (split; [reflexivity|]). exists []. now rewrite app_nil_r.
    + split; [exact Hw|]. simpl. do 3 (split; [reflexivity|]).
      exists [Cached (GetApplications refresh)]. split; [reflexivity|].
      now repeat constructor.
  - destruct (promises s !! q) as [[| |]|] eqn:Hq; try discriminate.
    now destruct (Hpend q).
  - destruct (promises s !! q) as [[| |]|] eqn:Hq; try discriminate.
    now destruct (Hpend q).
  - destruct (suspended s !! i) as [[who q]|] eqn:Hi; [|discriminate].
    assert (q = p) as ->.
    { rewrite Forall_forall in Hwait.
      apply (Hwait (who, q)). now apply list_elem_of_lookup_2 in Hi. }
    rewrite Hrej in Hstep. simpl in Hstep. injection Hstep as <-. simpl.
    split; [|do 3 (split; [reflexivity|])].
    + unfold wedged. simpl. do 3 (split; [assumption|]). now apply Forall_delete.
    + exists [Threw who]. split; [reflexivity|]. now repeat constructor.
Qed.

Lemma wedged_run p actions : forall s s',
  wedged p s -> run actions s = Some s' ->
  wedged p s'
  /\ applications s' = applications s
  /\ promises s' = promises s
  /\ changes s' = changes s
  /\ exists extra, outcomes s' = outcomes s ++ extra
                   /\ Forall (fun o => isCompleted o = false) extra.
Proof.
  induction actions as [|a actions IH]; intros s s' Hw Hrun; simpl in Hrun.
  - injection Hrun as <-. split; [assumption|]. do 3 (split; [reflexivity|]).
    exists []. now rewrite app_nil_r.
  - destruct (step a s) as [s1|] eqn:Hstep; [|discriminate].
    destruct (wedged_step _ _ _ _ Hw Hstep) as (Hw1 & Ha1 & Hp1 & Hc1 & e1 & Ho1 & He1).
    destruct (IH _ _ Hw1 Hrun) as (Hw' & Ha' & Hp' & Hc' & e' & Ho' & He').
    split; [assumption|]. do 3 (split; [congruence|]).
    exists (e1 ++ e'). split; [now rewrite Ho', Ho1, app_assoc|].
    apply Forall_app. auto.
Qed.

Lemma reject_wedges p s :
  soleInFlight p s ->
  step (ListingRejects p) s = Some (reject p s) /\ wedged p (reject p s).
Proof.
  intros (Hcur & Hpend & Hothers & Hwait). simpl. rewrite Hpend.
  split; [reflexivity|]. unfold wedged, reject. simpl.
  assert (Hlt : (p < length (promises s))%nat) by (eapply lookup_lt_Some; eauto).
  repeat split; auto.
  - now apply list_lookup_insert_eq.
  - intros q. destruct (decide (q = p)) as [->|Hne].
    + rewrite list_lookup_insert_eq by assumption. discriminate.
    + rewrite list_lookup_insert_ne by congruence. now apply Hothers.
Qed.

(** Calls that arrive while a refresh is the only one outstanding join
    it, and the first call on an idle provider starts such a refresh. *)
Lemma soleInFlight_join who p s :
  soleInFlight p s -> soleInFlight p (refreshApplications who s).
Proof.
  intros (Hcur & Hpend & Hothers & Hwait). unfold refreshApplications.
  rewrite Hcur. repeat split; simpl; auto.
  apply Forall_app. split; [assumption|]. now repeat constructor.
Qed.

Lemma soleInFlight_start who s :
  currentRefresh s = None ->
  (forall q, promises s !! q <> Some Pending) ->
  suspended s = [] ->
  soleInFlight (length (promises s)) (refreshApplications who s).
Proof.
  intros Hcur Hpend Hwait. unfold refreshApplications. rewrite Hcur, Hwait.
  repeat split; simpl; auto.
  - rewrite lookup_app_r by lia. now rewrite Nat.sub_diag.
  - intros q Hne. destruct (decide (q < length (promises s))%nat) as [Hlt|Hge].
    + rewrite lookup_app_l by assumption. apply Hpend.
    + rewrite lookup_ge_None_2; [discriminate|]. rewrite length_app. simpl. lia.
Qed.

(** C10 (as amended). If the listing of a refresh is rejected while that
    refresh is the only one outstanding (it is the in-flight marker, no
    other listing is pending and no caller is still parked on an earlier
    refresh), then the application list and the notification count are
    left as they were, and from then on, whatever is called: the marker
    stays on the rejected refresh, no listing is ever started again, no
    call completes, every refreshing call parks on the rejected refresh
    and every parked caller resumes by throwing. *)
Theorem failed_refresh_wedges_the_provider p s :
  soleInFlight p s ->
  exists s',
    step (ListingRejects p) s = Some s'
    /\ applications s' = applications s
    /\ changes s' = changes s
    /\ forall actions s'',
         run actions s' = Some s'' ->
         currentRefresh s'' = Some p
         /\ promises s'' !! p = Some Rejected
         /\ listings s'' = listings s
         /\ applications s'' = applications s
         /\ changes s'' = changes s
         /\ (exists extra, outcomes s'' = outcomes s' ++ extra
                           /\ Forall (fun o => isCompleted o = false) extra)
         /\ step CallRefresh s'' = Some (refreshApplications Timer s'')
         /\ step (CallGetApplications true) s''
            = Some (refreshApplications (GetApplications true) s'')
         /\ (forall who,
               suspended (refreshApplications who s'') = suspended s'' ++ [(who, p)]
               /\ promises (refreshApplications who s'') = promises s'')
         /\ (forall i who q,
               suspended s'' !! i = Some (who, q) ->
               exists s3, step (Resume i) s'' = Some s3
                          /\ outcomes s3 = outcomes s'' ++ [Threw who]
                          /\ currentRefresh s3 = Some p).
Proof.
  intros Hsole. destruct (reject_wedges p s Hsole) as [Hstep Hw].
  exists (reject p s). split; [assumption|]. split; [reflexivity|].
  split; [reflexivity|].
  intros actions s'' Hrun.
  destruct (wedged_run _ _ _ _ Hw Hrun) as (Hw' & Ha & Hp & Hc & Hout).
  pose proof Hw' as (Hcur & Hrej & Hpend & Hwait).
  do 2 (split; [assumption|]).
  split; [unfold listings; rewrite Hp; simpl; apply length_insert|].
  do 3 (split; [assumption|]).
  split; [reflexivity|].
  split; [simpl; unfold getApplications; now rewrite orb_true_r|].
  split.
  - intros who.
    destruct (refreshApplications_wedged who p s'' Hw') as [_ Heq].
    rewrite Heq. simpl. auto.
  - intros i who q Hi.
    assert (q = p) as ->.
    { rewrite Forall_forall in Hwait.
      apply (Hwait (who, q)). now apply list_elem_of_lookup_2 in Hi. }
    simpl. rewrite Hi, Hrej. simpl. eexists.
    split; [reflexivity|]. simpl. auto.
Qed.

Lemma failed_refresh_wedges_the_provider_witness :
  exists s',
    step (ListingRejects 0) (refreshApplications Timer init) = Some s'
    /\ applications s' = None
    /\ changes s' = 0%nat
    /\ forall actions s'',
         run actions s' = Some s'' ->
         currentRefresh s'' = Some 0%nat
         /\ promises s'' !! 0%nat = Some Rejected
         /\ listings s'' = 1%nat
         /\ applications s'' = None
         /\ changes s'' = 0%nat
         /\ (exists extra, outcomes s'' = outcomes s' ++ extra
                           /\ Forall (fun o => isCompleted o = false) extra)
         /\ step CallRefresh s'' = Some (refreshApplications Timer s'')
         /\ step (CallGetApplications true) s''
            = Some (refreshApplications (GetApplications true) s'')
         /\ (forall who,
               suspended (refreshApplications who s'') = suspended s'' ++ [(who, 0%nat)]
               /\ promises (refreshApplications who s'') = promises s'')
         /\ (forall i who q,
               suspended s'' !! i = Some (who, q) ->
               exists s3, step (Resume i) s'' = Some s3
                          /\ outcomes s3 = outcomes s'' ++ [Threw who]
                          /\ currentRefresh s3 = Some 0%nat).
Proof.
  apply (failed_refresh_wedges_the_provider 0 (refreshApplications Timer init)).
  split; [reflexivity|]. split; [reflexivity|].
  split; [|now repeat constructor].
  intros [|q] Hq; [congruence | discriminate].
Defined.

(** C10 (as stated) fails when a caller is still parked on an earlier
    refresh: in the schedule [Samples.lateJoiner] that caller clears the
    marker while refresh 1 is in flight, so when refresh 1 is rejected the
    marker is already empty, and the next call starts a third listing. *)
Lemma late_joiner_unwedges_the_provider :
  ~ staysWedged Samples.lateJoiner [] 1
  /\ ~ staysWedged Samples.lateJoiner [CallRefresh] 1.
Proof.
  split; intros Hclaim.
  - destruct (Hclaim _ _ _ eq_refl eq_refl eq_refl) as [Hcur _]. discriminate.
  - destruct (Hclaim _ _ _ eq_refl eq_refl eq_refl) as [_ Hlist]. discriminate.
Qed.

End RefreshTheorems.

(** ** The end-to-end scenarios of the design document *)

Module EndToEnd.

Import Client.

Lemma started_client_listens_once :
  listeners (start Samples.daprType (start Samples.daprType Client.init)) = 1%nat.
Proof. reflexivity. Qed.

(** After the announcement the provider lists the application, and the
    client fired one up event. *)
Lemma announce_lists_the_application :
  let session := (start Samples.daprType Client.init, MdnsProvider.init) in
  MdnsProvider.applications (snd (MdnsProvider.deliver Samples.announce session))
  = [Samples.myapp]
  /\ snd (receive Samples.announce (fst session)) = [ServiceUp Samples.serviceA].
Proof. split; vm_compute; reflexivity. Qed.

(** A service instance named like a property every plain object inherits
    is never announced; a goodbye for it fires [onServiceDown] with the
    inherited value, also in the packet that announces it. *)
Lemma inherited_name_is_never_announced :
  onResponse (Some Samples.daprType) ∅ Samples.announceInherited = (∅, [])
  /\ onResponse (Some Samples.daprType) ∅
       {| Dns.answers := [Samples.pointerUpInherited; Samples.pointerDownInherited;
                          Samples.serverInherited] |}
     = (∅, [ServiceDownInherited "constructor"]).
Proof. split; vm_compute; reflexivity. Qed.

(** After the goodbye the provider lists it no longer. *)
Lemma goodbye_unlists_the_application :
  let session := (start Samples.daprType Client.init, MdnsProvider.init) in
  MdnsProvider.applications
    (snd (MdnsProvider.deliver Samples.goodbye
            (MdnsProvider.deliver Samples.announce session))) = [].
Proof. vm_compute. reflexivity. Qed.

End EndToEnd.

(** ** Further properties of the mDNS client *)

Module ClientExtras.

Import Dns Client ClientVocabulary JsFacts StageFacts PhaseFacts UpFacts DownFacts.

Lemma awaited_listeners c : awaited c -> (listeners c <= 1)%nat.
Proof. induction 1; simpl in *; lia. Qed.

Lemma awaited_reachable c : awaited c -> reachable c.
Proof. induction 1; auto using reachable. Qed.

Lemma invoke_listeners times packet : forall c,
  listeners (fst (invoke times packet c)) = listeners c.
Proof.
  induction times as [|times IH]; intros c; simpl; [reflexivity|]. now rewrite IH.
Qed.

(** X1. While every [start] call runs its two halves back to back -- as
    [start()] of the second copy of the client always does, and
    [start(type)] of the first copy does when the caller awaits it before it
    touches the client again -- [onResponse] is registered on the socket at
    most once: exactly once after [start], not at all after [stop], however
    often either was called before, and a packet is then processed at most
    once. The first copy suspends before it registers: two overlapping
    [start(type)] calls register [onResponse] twice, a [stop()] that comes
    between the two halves of a [start(type)] leaves it registered, and with
    two registrations every packet is processed twice. *)
Theorem listener_registrations c :
  awaited c ->
  ((listeners c <= 1)%nat
   /\ (forall type', listeners (start type' c) = 1%nat
                     /\ listeners (start type' (start type' c)) = 1%nat)
   /\ listeners (stop c) = 0%nat
   /\ listeners (stop (stop c)) = 0%nat
   /\ (forall packet,
         dispatch packet c = (c, []) \/ dispatch packet c = receive packet c))
  /\ (forall a b,
        let c' := startResume b (startResume a (startEnter (startEnter c))) in
        listeners c' = 2%nat
        /\ listeners (stop c') = 1%nat
        /\ forall packet,
             dispatch packet c'
             = (fst (receive packet (fst (receive packet c'))),
                snd (receive packet c') ++ snd (receive packet (fst (receive packet c')))))
  /\ (forall a, listeners (startResume a (stop (startEnter c))) = 1%nat).
Proof.
  intros Hc. pose proof (awaited_listeners c Hc) as Hle.
  split; [|split].
  - split; [assumption|]. split; [intros type'; simpl; split; lia|].
    split; [simpl; lia|]. split; [simpl; lia|].
    intros packet. unfold dispatch.
    destruct (listeners c) as [|[|k]] eqn:Hk; [left; reflexivity | right | lia].
    cbn [invoke fst snd]. rewrite app_nil_r. now destruct (receive packet c).
  - intros a b c'.
    assert (Hl : listeners c' = 2%nat) by (subst c'; simpl; lia).
    split; [assumption|]. split; [simpl; lia|].
    intros packet. unfold dispatch. rewrite Hl. cbn [invoke fst snd].
    now rewrite app_nil_r.
  - intros a. simpl. lia.
Qed.

Lemma listener_registrations_witness :
  let c := fst (receive Samples.announce (start Samples.daprType init)) in
  let c' := startResume Samples.daprType
              (startResume Samples.daprType (startEnter (startEnter c))) in
  listeners c = 1%nat
  /\ listeners c' = 2%nat
  /\ snd (dispatch Samples.goodbyeInherited c')
     = [ServiceDownInherited "constructor"; ServiceDownInherited "constructor"].
Proof.
  pose proof (listener_registrations
                (fst (receive Samples.announce (start Samples.daprType init)))
                ltac:(repeat constructor)) as (_ & Htwo & _).
  split; [reflexivity|].
  split; [apply (Htwo Samples.daprType Samples.daprType)|].
  rewrite (proj2 (proj2 (Htwo Samples.daprType Samples.daprType))).
  reflexivity.
Defined.

(** X2. In every reachable state each record is registered under its own
    name, and this survives any packet. Every [onServiceUp] of a packet
    carries a record named after a nonzero-TTL pointer target of that packet
    that was not registered before and that a plain object does not inherit.
    Every [onServiceDown] that carries a record carries one named after a
    zero-TTL pointer target of that packet; every other [onServiceDown]
    carries the inherited value of a zero-TTL pointer target that a plain
    object inherits. *)
Theorem events_are_named_after_pointer_targets c packet :
  reachable c ->
  keyedByName (knownServices c)
  /\ keyedByName (knownServices (fst (receive packet c)))
  /\ (forall service,
        In (ServiceUp service) (snd (receive packet c)) ->
        upCandidate (type c) packet (name service)
        /\ knownServices c !! name service = None
        /\ Js.inherited (name service) = false)
  /\ (forall service,
        In (ServiceDown service) (snd (receive packet c)) ->
        downCandidate (type c) packet (name service))
  /\ (forall key,
        In (ServiceDownInherited key) (snd (receive packet c)) ->
        downCandidate (type c) packet key /\ Js.inherited key = true).
Proof.
  intros Hreach.
  pose proof (ClientTheorems.reachable_keyed c Hreach) as Hkeyed.
  split; [assumption|].
  split; [apply (ClientTheorems.reachable_keyed _ (reachable_receive packet c Hreach))|].
  unfold receive. simpl. rewrite onResponse_phases. simpl.
  split; [|split]; intros x Hin; apply in_app_or in Hin as [Hin|Hin].
  - destruct (upPhase_fired _ _ _ _ Hin) as (m & Hm & [= ->] & _ & Hnew & Hown).
    rewrite candidate_name. split; [now apply pointerTargets_up | auto].
  - destruct (downPhase_fired _ _ _ Hin) as (m & _ & [(s & [=] & _)|[[=] _]]).
  - destruct (upPhase_fired _ _ _ _ Hin) as (m & _ & [=] & _).
  - destruct (downPhase_fired _ _ _ Hin) as (m & Hm & [(s & [= ->] & Hs)|[[=] _]]).
    rewrite (upPhase_keyed _ _ _ Hkeyed _ _ Hs). now apply pointerTargets_down.
  - destruct (upPhase_fired _ _ _ _ Hin) as (m & _ & [=] & _).
  - destruct (downPhase_fired _ _ _ Hin) as (m & Hm & [(s & [=] & _)|[[= ->] Hinh]]).
    split; [now apply pointerTargets_down | assumption].
Qed.

Lemma events_are_named_after_pointer_targets_witness :
  keyedByName (knownServices (fst (receive Samples.announce
                                     (start Samples.daprType init))))
  /\ downCandidate (Some Samples.daprType) Samples.goodbyeInherited "constructor".
Proof.
  split.
  - apply (events_are_named_after_pointer_targets
             (start Samples.daprType init) Samples.announce).
    repeat constructor.
  - apply (proj2 (proj2 (proj2 (proj2
             (events_are_named_after_pointer_targets
                (start Samples.daprType init) Samples.goodbyeInherited
                ltac:(repeat constructor)))))).
    now left.
Defined.

Lemma noPointer_targets up type packet :
  noPointer type packet -> pointerTargets up type packet = [].
Proof.
  unfold noPointer, pointerTargets. destruct packet as [l]. simpl.
  induction l as [|a l IH]; intros Hno; simpl; [reflexivity|].
  rewrite IH by (intros; apply Hno; simpl; auto).
  destruct (data a) eqn:Hd; try reflexivity.
  destruct (Js.strictEq (Dns.name a) type) eqn:Ht; [|reflexivity].
  apply strictEq_true in Ht.
  assert (Hp : isPointerAnswer a = false) by (apply Hno; simpl; auto).
  unfold isPointerAnswer in Hp. rewrite Hd in Hp. discriminate.
Qed.

(** X3. A packet leaves alone every name that none of its pointer records
    (owned by the bound type) targets. A packet without such pointer records
    -- server, text and address records only, say -- changes nothing and
    fires nothing, so records are never stitched across packets; the same
    holds for every packet while no type is bound. *)
Theorem untargeted_names_are_untouched type reg packet :
  (forall n, ~ upCandidate type packet n -> ~ downCandidate type packet n ->
             fst (onResponse type reg packet) !! n = reg !! n)
  /\ (noPointer type packet -> onResponse type reg packet = (reg, []))
  /\ onResponse None reg packet = (reg, []).
Proof.
  assert (Hnone : forall type', noPointer type' packet ->
                                onResponse type' reg packet = (reg, [])).
  { intros type' Hno. rewrite onResponse_phases. simpl.
    now rewrite !(noPointer_targets _ _ _ Hno). }
  split; [|split].
  - intros n Hnoup Hnodown. rewrite ClientTheorems.onResponse_lookup.
    rewrite ClientTheorems.mem_down_false by assumption.
    destruct (reg !! n); [reflexivity|].
    destruct (bool_decide (n ∈ pointerTargets true type packet)) eqn:Hmem;
      [|reflexivity].
    apply ClientTheorems.mem_up in Hmem. contradiction.
  - apply Hnone.
  - apply Hnone. intros a _ Ha. discriminate.
Qed.

Lemma untargeted_names_are_untouched_witness :
  onResponse (Some Samples.daprType) Samples.registryOld
    {| answers := [Samples.server; Samples.textRecord; Samples.addressRecord] |}
  = (Samples.registryOld, []).
Proof.
  apply (proj1 (proj2 (untargeted_names_are_untouched _ _ _))).
  intros a Ha Ht. simpl in Ha.
  destruct Ha as [<-|[<-|[<-|[]]]]; reflexivity.
Defined.

Lemma filter_all {X : Type} (p : X -> bool) l :
  Forall (fun x => p x = true) l -> List.filter p l = l.
Proof.
  induction 1 as [|x l Hx _ IH]; simpl; [reflexivity|]. now rewrite Hx, IH.
Qed.

Lemma filter_none {X : Type} (p q : X -> bool) l :
  (forall x, q x = true -> p x = false) ->
  Forall (fun x => q x = true) l -> List.filter p l = [].
Proof.
  intros Hpq. induction 1 as [|x l Hx _ IH]; simpl; [reflexivity|].
  now rewrite (Hpq x Hx).
Qed.

Lemma upPhase_size packet names : forall reg,
  size (fst (upPhase packet names reg))
  = (size reg + length (snd (upPhase packet names reg)))%nat.
Proof.
  induction names as [|m names IH]; intros reg.
  - rewrite upPhase_nil. simpl. lia.
  - rewrite upPhase_cons.
    destruct (resolvable packet m); simpl; [|apply IH].
    destruct (reg !! m) eqn:Hm; simpl; [apply IH|].
    rewrite IH, map_size_insert_None by assumption. lia.
Qed.

Lemma downPhase_size names : forall reg,
  (size (fst (downPhase names reg))
   + length (List.filter isRecordDown (snd (downPhase names reg))))%nat
  = size reg.
Proof.
  induction names as [|m names IH]; intros reg.
  - rewrite downPhase_nil. simpl. lia.
  - rewrite downPhase_cons. destruct (reg !! m) as [s|] eqn:Hm; simpl.
    + rewrite <- (insert_delete_id reg m s Hm) at 3.
      rewrite map_size_insert_None by apply lookup_delete_eq.
      specialize (IH (delete m reg)). lia.
    + destruct (Js.inherited m); simpl; apply IH.
Qed.

Lemma upPhase_distinct packet names : forall reg,
  NoDup (upNames (snd (upPhase packet names reg))).
Proof.
  induction names as [|m names IH]; intros reg.
  - rewrite upPhase_nil. constructor.
  - rewrite upPhase_cons.
    destruct (resolvable packet m); simpl; [|apply IH].
    destruct (reg !! m) eqn:Hm; simpl; [apply IH|].
    constructor; [|apply IH].
    rewrite candidate_name. unfold upNames. rewrite list_elem_of_In, in_flat_map.
    intros (e & Hin & He).
    destruct (upPhase_fired _ _ _ _ Hin) as (k & _ & -> & _ & Hnew & _).
    simpl in He. rewrite candidate_name in He. destruct He as [<-|[]].
    rewrite lookup_insert_eq in Hnew. discriminate.
Qed.

Lemma upNames_app evs evs' : upNames (evs ++ evs') = upNames evs ++ upNames evs'.
Proof. unfold upNames. apply flat_map_app. Qed.

Lemma upNames_down evs :
  Forall (fun e => isDown e = true) evs -> upNames evs = [].
Proof.
  induction 1 as [|e evs He _ IH]; [reflexivity|].
  destruct e; [discriminate| |]; exact IH.
Qed.

(** X4. The events of a packet account for what it does to the registry:
    the size of the registry grows by the number of [onServiceUp] events and
    shrinks by the number of [onServiceDown] events that carry a record --
    those that carry an inherited value leave the registry as it is -- and
    no two [onServiceUp] events of one packet carry the same name. *)
Theorem events_account_for_the_registry type reg packet :
  let r := onResponse type reg packet in
  (size (fst r) + length (List.filter isRecordDown (snd r))
   = size reg + length (List.filter isUp (snd r)))%nat
  /\ NoDup (upNames (snd r)).
Proof.
  simpl. rewrite onResponse_phases. simpl.
  set (up := upPhase packet (pointerTargets true type packet) reg).
  set (down := downPhase (pointerTargets false type packet) (fst up)).
  rewrite !List.filter_app, upNames_app.
  rewrite (filter_none isRecordDown isUp (snd up)),
    (filter_all isUp (snd up)), (filter_none isUp isDown (snd down)),
    (upNames_down (snd down));
    try apply upPhase_all_up; try apply downPhase_all_down;
    try (intros [| |]; simpl; congruence).
  rewrite !app_nil_r. simpl. split.
  - pose proof (upPhase_size packet (pointerTargets true type packet) reg) as Hu.
    pose proof (downPhase_size (pointerTargets false type packet) (fst up)) as Hd.
    fold up in Hu. fold down in Hd. lia.
  - apply upPhase_distinct.
Qed.

Lemma upPhase_settled packet names : forall reg,
  (forall n, In n names -> is_Some (reg !! n) \/ resolvable packet n = false) ->
  upPhase packet names reg = (reg, []).
Proof.
  induction names as [|m names IH]; intros reg Hset; [reflexivity|].
  rewrite upPhase_cons.
  destruct (Hset m) as [[s Hs]|Hf]; [now left| |].
  - rewrite Hs. simpl. rewrite andb_false_r. apply IH. intros; apply Hset; now right.
  - rewrite Hf. simpl. apply IH. intros; apply Hset; now right.
Qed.

(** X5. Announcements are idempotent: processing a packet that says goodbye
    to nothing a second time, right after the first, fires no event and
    leaves the registry as the first processing left it. *)
Theorem announcements_are_idempotent type reg packet :
  (forall n, ~ downCandidate type packet n) ->
  onResponse type (fst (onResponse type reg packet)) packet
  = (fst (onResponse type reg packet), []).
Proof.
  intros Hnodown.
  assert (Hdowns : pointerTargets false type packet = []).
  { destruct (pointerTargets false type packet) as [|m l] eqn:Hl; [reflexivity|].
    destruct (Hnodown m). apply pointerTargets_down. rewrite Hl. now left. }
  rewrite !onResponse_phases. simpl. rewrite Hdowns, !downPhase_nil. simpl.
  rewrite upPhase_settled; [reflexivity|].
  intros n Hn. rewrite upPhase_lookup.
  destruct (reg !! n); [left; eauto|].
  rewrite (bool_decide_eq_true_2 (n ∈ pointerTargets true type packet))
    by now apply list_elem_of_In.
  simpl. destruct (resolvable packet n); [left; eauto | now right].
Qed.

Lemma announcements_are_idempotent_witness :
  onResponse (Some Samples.daprType)
    (fst (onResponse (Some Samples.daprType) ∅ Samples.announce)) Samples.announce
  = (fst (onResponse (Some Samples.daprType) ∅ Samples.announce), []).
Proof.
  apply (announcements_are_idempotent (Some Samples.daprType) ∅ Samples.announce).
  intros n (a & Ha & _ & Httl & _). simpl in Ha.
  destruct Ha as [<-|[<-|[<-|[<-|[]]]]]; discriminate.
Defined.

Lemma delete_keyed m (reg : gmap string MdnsService) :
  keyedByName reg -> keyedByName (delete m reg).
Proof.
  intros Hk n s Hn. destruct (decide (m = n)) as [->|Hne].
  - rewrite lookup_delete_eq in Hn. discriminate.
  - rewrite lookup_delete_ne in Hn by assumption. eauto.
Qed.

Lemma downPhase_filter n names : forall reg,
  keyedByName reg ->
  List.filter (isDownFor n) (snd (downPhase names reg))
  = if bool_decide (n ∈ names)
    then match reg !! n with
         | Some service => [ServiceDown service]
         | None => []
         end
    else [].
Proof.
  induction names as [|m names IH]; intros reg Hk.
  - now rewrite downPhase_nil, mem_nil.
  - rewrite downPhase_cons. destruct (reg !! m) as [s|] eqn:Hm.
    + cbn [snd List.filter isDownFor]. rewrite (Hk _ _ Hm).
      rewrite IH by now apply delete_keyed.
      destruct (String.eqb m n) eqn:He.
      * apply String.eqb_eq in He. subst m.
        rewrite mem_cons_eq, lookup_delete_eq, Hm. now destruct (bool_decide _).
      * apply String.eqb_neq in He.
        rewrite mem_cons_ne, lookup_delete_ne by congruence. reflexivity.
    + assert (Hrest : List.filter (isDownFor n)
                        (snd (if Js.inherited m
                              then (fst (downPhase names reg),
                                    ServiceDownInherited m :: snd (downPhase names reg))
                              else downPhase names reg))
                      = List.filter (isDownFor n) (snd (downPhase names reg)))
        by now destruct (Js.inherited m).
      rewrite Hrest, IH by assumption. destruct (decide (n = m)) as [->|Hne].
      * rewrite mem_cons_eq, Hm. now destruct (bool_decide _).
      * now rewrite mem_cons_ne.
Qed.

(** X6. A goodbye for a registered name fires exactly one [onServiceDown]
    for that name, even if the packet repeats the pointer record or
    announces the name again, and the event carries the record that was
    registered before the packet, not one resolved from the packet. The
    name is not registered afterwards. *)
Theorem goodbye_carries_the_last_known_record type reg packet n old :
  keyedByName reg ->
  reg !! n = Some old ->
  downCandidate type packet n ->
  fst (onResponse type reg packet) !! n = None
  /\ List.filter (isDownFor n) (snd (onResponse type reg packet)) = [ServiceDown old].
Proof.
  intros Hk Hold Hdown. split.
  - rewrite ClientTheorems.onResponse_lookup.
    now rewrite (proj2 (ClientTheorems.mem_down _ _ _) Hdown).
  - rewrite onResponse_phases. simpl. rewrite List.filter_app.
    rewrite (filter_none (isDownFor n) isUp (snd (upPhase _ _ _)));
      [|intros [| |]; simpl; congruence | apply upPhase_all_up].
    rewrite downPhase_filter by now apply upPhase_keyed.
    rewrite (proj2 (ClientTheorems.mem_down _ _ _) Hdown).
    now rewrite upPhase_lookup, Hold.
Qed.

Lemma goodbye_carries_the_last_known_record_witness :
  fst (onResponse (Some Samples.daprType) Samples.registryOld
         Samples.announceAndGoodbye) !! "svcA" = None
  /\ List.filter (isDownFor "svcA")
       (snd (onResponse (Some Samples.daprType) Samples.registryOld
               Samples.announceAndGoodbye))
     = [ServiceDown Samples.serviceOld].
Proof.
  apply (goodbye_carries_the_last_known_record (Some Samples.daprType)
           Samples.registryOld Samples.announceAndGoodbye "svcA" Samples.serviceOld).
  - intros k s Hs. unfold Samples.registryOld in Hs.
    apply lookup_singleton_Some in Hs as [<- <-]. reflexivity.
  - reflexivity.
  - exists Samples.pointerDown. simpl. repeat split; auto.
Defined.

End ClientExtras.

(** ** Further properties of the resolution of a candidate *)

Module ResolutionExtras.

Import Dns Client ClientVocabulary JsFacts StageFacts.

(** A scan applies its update last to the last record it selects. *)
Lemma scan_last {S : Type} (f : S -> MdnsAnswer -> S) (isKind : MdnsAnswer -> bool)
    owner l before a after s :
  l = before ++ a :: after ->
  Dns.name a = owner ->
  isKind a = true ->
  Forall (fun x => Dns.name x = owner -> isKind x = false) after ->
  fold_left f (List.filter isKind (List.filter (ownedBy owner) l)) s
  = f (fold_left f (List.filter isKind (List.filter (ownedBy owner) before)) s) a.
Proof.
  intros -> Hown Hkind Hafter.
  assert (Ho : ownedBy owner a = true) by (unfold ownedBy; now apply String.eqb_eq).
  assert (Hnil : List.filter isKind (List.filter (ownedBy owner) after) = []).
  { induction after as [|x after IH]; simpl; [reflexivity|].
    inversion_clear Hafter as [|? ? Hx Hrest].
    destruct (ownedBy owner x) eqn:Hox; simpl; [|now apply IH].
    unfold ownedBy in Hox. apply String.eqb_eq in Hox.
    rewrite (Hx Hox). now apply IH. }
  rewrite !List.filter_app. simpl. rewrite Ho. simpl. rewrite Hkind, Hnil.
  now rewrite fold_left_app.
Qed.

Lemma scan_none (isKind : MdnsAnswer -> bool) owner l :
  (forall x, In x l -> Dns.name x = owner -> isKind x = false) ->
  List.filter isKind (List.filter (ownedBy owner) l) = [].
Proof.
  induction l as [|x l IH]; intros Hno; simpl; [reflexivity|].
  destruct (ownedBy owner x) eqn:Hox; simpl.
  - unfold ownedBy in Hox. apply String.eqb_eq in Hox.
    rewrite (Hno x) by (simpl; auto). apply IH. intros; apply Hno; simpl; auto.
  - apply IH. intros; apply Hno; simpl; auto.
Qed.

Lemma setAddress_text s a : text (setAddress s a) = text s.
Proof. unfold setAddress. now destruct (data a). Qed.

Lemma setServer_text s a : text (setServer s a) = text s.
Proof. unfold setServer. now destruct (data a). Qed.

Lemma setServer_address s a : address (setServer s a) = address s.
Proof. unfold setServer. now destruct (data a). Qed.

Lemma setText_address s a : address (setText s a) = address s.
Proof. unfold setText. now destruct (data a). Qed.

(** X7. When a packet has several text records for one candidate, or
    several address records for its host, the last one wins: the candidate's
    [text] is the payload of the last text record owned by its name, and its
    [address] that of the last address record owned by its resolved [fqdn].
    Without such a record the field stays empty. *)
Theorem last_record_wins packet n :
  (forall entries, lastText packet n entries -> text (candidate packet n) = entries)
  /\ (forall addr, lastAddress packet (fqdn (candidate packet n)) addr ->
                   address (candidate packet n) = addr)
  /\ ((forall answer, In answer (answers packet) -> Dns.name answer = n ->
                      isTextAnswer answer = false) ->
      text (candidate packet n) = [])
  /\ ((forall answer, In answer (answers packet) ->
                      Dns.name answer = fqdn (candidate packet n) ->
                      isAddressAnswer answer = false) ->
      address (candidate packet n) = "").
Proof.
  unfold candidate, resolve.
  set (service1 := fold_left setServer _ (blank n)).
  assert (Hname1 : name service1 = n)
    by (unfold service1; now rewrite (fold_preserves setServer name)
                           by apply setServer_name).
  rewrite Hname1.
  set (service2 := fold_left setText _ service1).
  rewrite (fold_preserves setAddress fqdn) by apply setAddress_fqdn.
  split; [|split; [|split]].
  - intros entries (before & txt & after & Hl & Hown & Hd & Hafter).
    rewrite (fold_preserves setAddress text) by apply setAddress_text.
    unfold service2.
    rewrite (scan_last setText isTextAnswer n _ before txt after _ Hl Hown);
      [|unfold isTextAnswer; now rewrite Hd | assumption].
    unfold setText. now rewrite Hd.
  - intros addr (before & a & after & Hl & Hown & Hd & Hafter).
    rewrite (scan_last setAddress isAddressAnswer _ _ before a after _ Hl Hown);
      [|unfold isAddressAnswer; now rewrite Hd | assumption].
    unfold setAddress. now rewrite Hd.
  - intros Hno.
    rewrite (fold_preserves setAddress text) by apply setAddress_text.
    unfold service2. rewrite scan_none by assumption. simpl.
    unfold service1. now rewrite (fold_preserves setServer text) by apply setServer_text.
  - intros Hno. rewrite scan_none by assumption. simpl.
    unfold service2. rewrite (fold_preserves setText address) by apply setText_address.
    unfold service1.
    now rewrite (fold_preserves setServer address) by apply setServer_address.
Qed.

Lemma last_record_wins_witness :
  text (candidate Samples.announce "svcA") = ["appId=myapp"; "httpPort=3501"]
  /\ address (candidate Samples.announce "svcA") = "10.0.0.5".
Proof.
  split.
  - apply (proj1 (last_record_wins Samples.announce "svcA")).
    exists [Samples.pointerUp; Samples.server], Samples.textRecord,
      [Samples.addressRecord].
    repeat split; auto; repeat constructor; discriminate.
  - apply (proj1 (proj2 (last_record_wins Samples.announce "svcA"))).
    exists [Samples.pointerUp; Samples.server; Samples.textRecord],
      Samples.addressRecord, [].
    repeat split; auto.
Defined.

End ResolutionExtras.

(** ** Further properties of the mDNS-backed provider *)

Module ProviderExtras.

Import App MdnsProvider ProviderVocabulary.

Lemma sameAppId_true application a :
  sameAppId application a = true <-> appId a = appId application.
Proof. unfold sameAppId. apply String.eqb_eq. Qed.

Lemma sameAppId_false application a :
  sameAppId application a = false <-> appId a <> appId application.
Proof. unfold sameAppId. apply String.eqb_neq. Qed.

(** [findIndex] returns the position of the first element that satisfies
    the predicate. *)
Lemma findIndex_Some {X : Type} (p : X -> bool) : forall l i,
  findIndex p l = Some i ->
  exists x, l !! i = Some x /\ p x = true
            /\ forall j y, (j < i)%nat -> l !! j = Some y -> p y = false.
Proof.
  induction l as [|y l IH]; intros i; simpl; [discriminate|].
  destruct (p y) eqn:Hy.
  - intros [= <-]. exists y. repeat split; auto. intros j z Hj. lia.
  - destruct (findIndex p l) as [k|]; [|discriminate]. simpl. intros [= <-].
    destruct (IH k eq_refl) as (x & Hx & Hpx & Hbefore).
    exists x. repeat split; auto.
    intros [|j] z Hj; simpl; [now intros [= <-]|].
    apply Hbefore. lia.
Qed.

Lemma findIndex_None {X : Type} (p : X -> bool) : forall l,
  findIndex p l = None -> Forall (fun x => p x = false) l.
Proof.
  induction l as [|y l IH]; simpl; [constructor|].
  destruct (p y) eqn:Hy; [discriminate|].
  destruct (findIndex p l); [discriminate|]. intros _. constructor; auto.
Qed.

Lemma onServiceUp_applications service p :
  applications (onServiceUp service p)
  = match toApplication service with
    | Some application =>
        match findIndex (sameAppId application) (applications p) with
        | Some index => <[index := application]> (applications p)
        | None => applications p ++ [application]
        end
    | None => applications p
    end.
Proof. unfold onServiceUp. now destruct (toApplication service). Qed.

Lemma onServiceUp_unique service p :
  uniqueIds (applications p) -> uniqueIds (applications (onServiceUp service p)).
Proof.
  unfold uniqueIds, appIds. intros Hu. rewrite onServiceUp_applications.
  destruct (toApplication service) as [app|]; [|assumption].
  destruct (findIndex (sameAppId app) (applications p)) as [i|] eqn:Hi.
  - destruct (findIndex_Some _ _ _ Hi) as (x & Hx & Hpx & _).
    apply sameAppId_true in Hpx.
    rewrite list_fmap_insert, list_insert_id; [assumption|].
    rewrite list_lookup_fmap, Hx. simpl. now rewrite Hpx.
  - apply findIndex_None in Hi. rewrite fmap_app. apply NoDup_app.
    split; [assumption|]. split; [|apply NoDup_singleton].
    intros id Hid Hin. apply list_elem_of_fmap in Hid as (a & -> & Ha).
    apply list_elem_of_singleton in Hin.
    rewrite List.Forall_forall in Hi. apply list_elem_of_In in Ha.
    apply Hi, sameAppId_false in Ha. contradiction.
Qed.

Lemma onServiceDown_unique service p :
  uniqueIds (applications p) -> uniqueIds (applications (onServiceDown service p)).
Proof.
  unfold uniqueIds, appIds. intros Hu.
  rewrite MdnsProviderTheorems.onServiceDown_applications.
  destruct (toApplication service) as [app|]; [|assumption].
  destruct (findIndex (sameAppId app) (applications p)) as [i|]; [|assumption].
  rewrite fmap_take. apply (sublist_NoDup _ _ Hu (sublist_take _ _)).
Qed.

(** X8. The provider never lists two applications with the same id:
    starting from the empty list, or from any list with distinct ids, the
    list has distinct ids after any sequence of up and down events. *)
Theorem application_ids_stay_distinct events :
  uniqueIds (applications (handleAll events MdnsProvider.init))
  /\ forall p, uniqueIds (applications p) ->
               uniqueIds (applications (handleAll events p)).
Proof.
  assert (Hall : forall p, uniqueIds (applications p) ->
                           uniqueIds (applications (handleAll events p))).
  { unfold handleAll. induction events as [|e events IH]; intros p Hp; [assumption|].
    simpl. apply IH. destruct e; simpl;
      [now apply onServiceUp_unique | now apply onServiceDown_unique | assumption]. }
  split; [|exact Hall]. apply Hall. constructor.
Qed.

Lemma application_ids_stay_distinct_witness :
  uniqueIds (applications (handleAll [Client.ServiceUp Samples.serviceA;
                                      Client.ServiceUp Samples.serviceOld]
                             Samples.threeApplications)).
Proof.
  apply (proj2 (application_ids_stay_distinct _)).
  unfold uniqueIds, appIds. simpl.
  repeat (constructor; [rewrite ?elem_of_cons, elem_of_nil; intuition discriminate|]).
  constructor.
Defined.

(** X9. After a down event for a service that translates to an application,
    the list holds no application with that id, and it is an initial
    segment of the list before; a down event for a service that does not
    translate, or whose id is not listed, leaves the list as it was. *)
Theorem down_event_unlists_the_id service p :
  (forall application,
     toApplication service = Some application ->
     Forall (fun a => appId a <> appId application)
       (applications (onServiceDown service p))
     /\ (exists dropped,
           applications p = applications (onServiceDown service p) ++ dropped)
     /\ (Forall (fun a => appId a <> appId application) (applications p) ->
         applications (onServiceDown service p) = applications p))
  /\ (toApplication service = None ->
      applications (onServiceDown service p) = applications p).
Proof.
  rewrite MdnsProviderTheorems.onServiceDown_applications. split.
  - intros app ->.
    destruct (findIndex (sameAppId app) (applications p)) as [i|] eqn:Hi.
    + destruct (findIndex_Some _ _ _ Hi) as (x & Hx & Hpx & Hbefore).
      split; [|split].
      * apply List.Forall_forall. intros a Ha.
        apply list_elem_of_In, elem_of_take in Ha as (j & Hj & Hlt).
        apply sameAppId_false. eauto.
      * exists (drop i (applications p)). now rewrite take_drop.
      * intros Hnone. rewrite List.Forall_forall in Hnone.
        apply sameAppId_true in Hpx. destruct (Hnone x); [|assumption].
        apply list_elem_of_In. eapply list_elem_of_lookup_2; eauto.
    + apply findIndex_None in Hi. split; [|split].
      * eapply List.Forall_impl; [|exact Hi]. intros a. apply sameAppId_false.
      * exists []. now rewrite app_nil_r.
      * reflexivity.
  - now intros ->.
Qed.

Lemma down_event_unlists_the_id_witness :
  Forall (fun a => appId a <> appId Samples.myapp)
    (applications (onServiceDown Samples.serviceA
                     {| applications := [Samples.orders; Samples.myapp; Samples.billing];
                        changes := 0 |})).
Proof.
  apply (proj1 (down_event_unlists_the_id Samples.serviceA _) Samples.myapp).
  reflexivity.
Defined.






End ProviderExtras.

(** ** Further properties of the command-line parsing *)

Module CommandLineExtras.

Import App RegExp RegExpFacts ProcessProvider CommandLineVocabulary.
Import CommandLineTheorems.

Lemma takeChars_allChars class : forall s n,
  (n <= runLength class s)%nat -> Text.allChars class (takeChars n s) = true.
Proof.
  unfold Text.allChars.
  induction s as [|c s IH]; intros [|n] Hn; simpl in *; try reflexivity.
  destruct (class c) eqn:Hc; [|lia]. simpl. apply IH. lia.
Qed.

(** A match of a flag pattern captures the longest run of the class at the
    place where the group starts. *)
Lemma flag_match_run l c class s groups :
  matchHere [Lit l; Opt c; Group class; Opt c] s = Some groups ->
  exists g, groups = [g] /\ g <> "" /\ Text.allChars class g = true.
Proof.
  rewrite matchHere_lit. destruct (stripPrefix l s) as [r|]; [|discriminate].
  rewrite matchHere_opt_cons.
  assert (Hgroup : forall x, matchHere [Group class; Opt c] x = Some groups ->
                             exists g, groups = [g] /\ g <> ""
                                       /\ Text.allChars class g = true).
  { intros x. rewrite matchHere_group_opt.
    destruct (runLength class x) as [|m] eqn:Hrun; [discriminate|].
    intros [= <-]. eexists. split; [reflexivity|].
    split; [now apply (takeChars_run class)|].
    apply (takeChars_allChars class x (S m)). lia. }
  destruct r as [|d r]; [apply Hgroup|].
  destruct (Ascii.eqb d c); [|apply Hgroup].
  destruct (matchHere [Group class; Opt c] r) eqn:Hr; [|apply Hgroup].
  intros [= <-]. now apply (Hgroup r).
Qed.

Lemma exec_flag_run l c class cmd groups :
  exec [Lit l; Opt c; Group class; Opt c] cmd = Some groups ->
  exists g, groups = [g] /\ g <> "" /\ Text.allChars class g = true.
Proof.
  intros He. destruct (exec_sound _ _ _ He) as (b & suffix & _ & Hs).
  now apply flag_match_run in Hs.
Qed.

Lemma digit_head c rest :
  Text.isDigit c = true ->
  Text.parseInt (String c rest)
  = match Text.leadingDigits (String c rest) None with
    | Some n => Text.ofInteger (1 * n)
    | None => Text.NaN
    end.
Proof.
  destruct c as [[] [] [] [] [] [] [] []]; intros H;
    first [ discriminate H | reflexivity ].
Qed.

Lemma digitValue_nonneg c : Text.isDigit c = true -> 0 <= Text.digitValue c.
Proof.
  unfold Text.isDigit, Text.digitValue. intros H.
  apply andb_true_iff in H as [H _]. apply Nat.leb_le in H. lia.
Qed.

Lemma leadingDigits_nonneg : forall s acc n,
  (forall a, acc = Some a -> 0 <= a) ->
  Text.leadingDigits s acc = Some n -> 0 <= n.
Proof.
  induction s as [|c s IH]; intros acc n Hacc; simpl; [apply Hacc|].
  destruct (Text.isDigit c) eqn:Hc; [|apply Hacc].
  apply IH. intros a [= <-]. pose proof (digitValue_nonneg c Hc).
  destruct acc as [a0|]; simpl; [specialize (Hacc a0 eq_refl)|]; lia.
Qed.

Lemma leadingDigits_Some : forall s a, exists n, Text.leadingDigits s (Some a) = Some n.
Proof.
  induction s as [|c s IH]; intros a; simpl; [eauto|].
  destruct (Text.isDigit c); eauto.
Qed.

(** [parseInt] of a non-empty word of digits is the number for a
    non-negative integer. *)
Lemma parseInt_digits g :
  g <> "" -> Text.allChars Text.isDigit g = true ->
  exists n, 0 <= n /\ Text.parseInt g = Text.ofInteger n.
Proof.
  destruct g as [|c rest]; [contradiction|]. intros _ Hall.
  unfold Text.allChars in Hall. simpl in Hall.
  apply andb_true_iff in Hall as [Hc _].
  rewrite (digit_head c rest Hc).
  destruct (Text.leadingDigits (String c rest) None) as [n|] eqn:Hn.
  - exists (1 * n). split; [|reflexivity].
    apply leadingDigits_nonneg in Hn; [lia | discriminate].
  - simpl in Hn. rewrite Hc in Hn.
    destruct (leadingDigits_Some rest (10 * 0 + Text.digitValue c)) as [n Hn'].
    simpl in Hn'. congruence.
Qed.

Lemma ofInteger_cases n :
  0 <= n ->
  (n <= 2 ^ 53 -> Text.ofInteger n = Text.Int n)
  /\ (2 ^ 53 < n -> Text.ofInteger n = Text.Rounded n).
Proof.
  intros Hn. unfold Text.ofInteger. rewrite Z.abs_eq by assumption.
  destruct (Z.leb_spec n (2 ^ 53)); split; intros; first [reflexivity | lia].
Qed.

Lemma getHttpPort_number cmd :
  exists n, 0 <= n /\ getHttpPort cmd = Text.ofInteger n.
Proof.
  unfold getHttpPort, portRegEx.
  destruct (exec _ cmd) as [groups|] eqn:He; simpl.
  - destruct (exec_flag_run _ _ _ _ _ He) as (g & -> & Hne & Hall). simpl.
    now apply parseInt_digits.
  - exists 3500. split; [lia | reflexivity].
Qed.

(** X12. Whatever the command line, [getHttpPort] returns the number for a
    non-negative integer [n], never [NaN] and never a negative number: the
    pattern only captures a non-empty word of digits, and without a match
    the port is 3500. The number is [n] itself for [n] up to 2^53; for a
    longer word of digits it is the double next to [n]. *)
Theorem http_port_is_never_negative cmd :
  (exists n, 0 <= n
             /\ getHttpPort cmd = Text.ofInteger n
             /\ (n <= 2 ^ 53 -> getHttpPort cmd = Text.Int n)
             /\ (2 ^ 53 < n -> getHttpPort cmd = Text.Rounded n))
  /\ getHttpPort cmd <> Text.NaN
  /\ (exec portRegEx cmd = None -> getHttpPort cmd = Text.Int 3500).
Proof.
  destruct (getHttpPort_number cmd) as (n & Hn & Hport).
  destruct (ofInteger_cases n Hn) as [Hint Hrounded].
  split; [|split].
  - exists n. rewrite Hport. auto.
  - rewrite Hport. unfold Text.ofInteger. now destruct (_ <=? _).
  - intros Hnone. unfold getHttpPort. now rewrite Hnone.
Qed.

Lemma http_port_is_never_negative_witness :
  getHttpPort "daprd --dapr-http-port 9007199254740993" <> Text.NaN
  /\ getHttpPort "daprd --dapr-http-port 9007199254740993"
     = Text.Rounded 9007199254740993
  /\ getHttpPort "daprd --app-id orders" = Text.Int 3500.
Proof.
  split; [apply (http_port_is_never_negative _)|].
  split; [reflexivity|].
  apply (proj2 (proj2 (http_port_is_never_negative _))). reflexivity.
Defined.

Lemma getAppId_word cmd id :
  getAppId cmd = Some id -> id <> "" /\ Text.allChars Text.isAppIdChar id = true.
Proof.
  unfold getAppId, appIdRegEx.
  destruct (exec _ cmd) as [groups|] eqn:He; [|discriminate].
  destruct (exec_flag_run _ _ _ _ _ He) as (g & -> & Hne & Hall).
  simpl. now intros [= <-].
Qed.

Lemma toApplication_wellFormed cmd pid' a :
  toApplication cmd pid' = Some a ->
  wellFormed a /\ pid a = Some pid' /\ httpPort a = getHttpPort (default "" cmd)
  /\ getAppId (default "" cmd) = Some (appId a).
Proof.
  unfold toApplication. destruct cmd as [cmd|]; [|discriminate].
  destruct (Js.truthyString cmd); [|discriminate].
  destruct (getAppId cmd) as [id|] eqn:Hid; [|discriminate].
  destruct (Js.truthyString id); [|discriminate].
  intros [= <-]. simpl.
  destruct (getAppId_word _ _ Hid) as [Hne Hall].
  repeat split; auto.
  destruct (getHttpPort_number cmd) as (n & Hn & ->).
  unfold Text.ofInteger. now destruct (_ <=? _).
Qed.

Lemma toApplications_length processes :
  (length (toApplications processes) <= length processes)%nat.
Proof.
  unfold toApplications. induction processes as [|process l IH]; simpl; [lia|].
  unfold omap in IH. destruct (toApplication _ _); simpl; lia.
Qed.

(** X13. Every descriptor the process-backed provider builds from a
    process is well formed: it carries the process id, its id is a non-empty
    word over [[a-zA-Z0-9_-]] (no quote, no space), and its port is a number
    that is neither [NaN] nor negative (an integer up to 2^53, or the double
    next to a larger one). A process without a command line, or with an empty
    one, yields no descriptor. The list rebuilt from a process listing
    contains only such descriptors and is no longer than the listing. *)
Theorem process_descriptors_are_well_formed :
  (forall cmd pid' a,
     toApplication cmd pid' = Some a -> wellFormed a /\ pid a = Some pid')
  /\ (forall pid', toApplication None pid' = None /\ toApplication (Some "") pid' = None)
  /\ (forall processes,
        Forall wellFormed (toApplications processes)
        /\ (length (toApplications processes) <= length processes)%nat).
Proof.
  split; [|split].
  - intros cmd pid' a Ha. destruct (toApplication_wellFormed _ _ _ Ha) as (? & ? & _).
    auto.
  - intros pid'. split; reflexivity.
  - intros processes. unfold toApplications. split.
    + apply List.Forall_forall. intros a Ha.
      apply list_elem_of_In, list_elem_of_omap in Ha as (process & _ & Ha).
      now apply toApplication_wellFormed in Ha.
    + apply toApplications_length.
Qed.

Lemma process_descriptors_are_well_formed_witness :
  wellFormed {| appId := "orders"; httpPort := Text.Int 3600; pid := Some 42 |}.
Proof.
  apply (proj1 process_descriptors_are_well_formed (Some Samples.ordersCommand) 42).
  reflexivity.
Defined.

End CommandLineExtras.

Module FirstFlagExtras.

Import App RegExp RegExpFacts ProcessProvider CommandLineVocabulary.
Import CommandLineTheorems.

Lemma stripPrefix_None l s : String.prefix l s = false -> stripPrefix l s = None.
Proof.
  intros Hp. destruct (stripPrefix l s) as [rest|] eqn:Hs; [|reflexivity].
  apply stripPrefix_prefix in Hs. congruence.
Qed.

Lemma run_exact class : forall word rest,
  Text.allChars class word = true -> endsRun class rest = true ->
  takeChars (runLength class (word ++ rest)%string) (word ++ rest)%string = word
  /\ (word <> "" -> runLength class (word ++ rest)%string <> O).
Proof.
  unfold Text.allChars.
  induction word as [|d word IH]; intros rest Hall Hend.
  - rewrite append_nil. split; [|congruence].
    destruct rest as [|e rest]; [reflexivity|]. simpl in *.
    now destruct (class e).
  - rewrite append_cons. simpl in *. apply andb_true_iff in Hall as [Hd Hall].
    rewrite Hd. simpl. split; [|discriminate].
    f_equal. now apply IH.
Qed.

(** With the flag in place and the word delimited, the pattern captures
    exactly the word. *)
Lemma flag_match_exact l c class q word rest :
  class c = false ->
  q = "" \/ q = String c "" ->
  word <> "" ->
  Text.allChars class word = true ->
  endsRun class rest = true ->
  matchHere [Lit l; Opt c; Group class; Opt c] (l ++ q ++ word ++ rest)%string
  = Some [word].
Proof.
  intros Hc Hq Hne Hall Hend.
  destruct (run_exact class word rest Hall Hend) as [Htake Hrun].
  assert (Hgroup : matchHere [Group class; Opt c] (word ++ rest)%string = Some [word]).
  { rewrite matchHere_group_opt.
    destruct (runLength class (word ++ rest)%string) as [|m] eqn:Hm;
      [now destruct (Hrun Hne) | now rewrite Htake]. }
  rewrite matchHere_lit, stripPrefix_app, matchHere_opt_cons.
  destruct Hq as [-> | ->].
  - rewrite append_nil. destruct word as [|d word]; [contradiction|].
    rewrite append_cons in *.
    destruct (Ascii.eqb d c) eqn:Hdc; [|exact Hgroup].
    apply Ascii.eqb_eq in Hdc. subst d.
    unfold Text.allChars in Hall. simpl in Hall. rewrite Hc in Hall. discriminate.
  - rewrite append_cons, append_nil, Ascii.eqb_refl. now rewrite Hgroup.
Qed.

(** [exec] returns the match at the first place where the literal occurs,
    if the pattern matches there. *)
Lemma exec_first l re tail groups :
  matchHere (Lit l :: re) tail = Some groups ->
  forall before,
    occursWithin l before tail = false ->
    exec (Lit l :: re) (before ++ tail)%string = Some groups.
Proof.
  intros Hm. induction before as [|d before IH]; intros Hocc.
  - rewrite append_nil. now apply exec_here.
  - cbn [occursWithin] in Hocc. apply orb_false_iff in Hocc as [Hp Hocc].
    rewrite append_cons in *. cbn [exec].
    rewrite matchHere_lit, (stripPrefix_None _ _ Hp). now apply IH.
Qed.

(** X14. Both flags are read where they first occur: if the first
    occurrence of [--app-id ] in the command line is followed by an optional
    double quote and a word over [[a-zA-Z0-9_-]] that ends there, [getAppId]
    returns exactly that word, and likewise [getHttpPort] returns [parseInt]
    of the word of digits after the first [--dapr-http-port ]; later
    occurrences of the flag are not looked at. *)
Theorem flags_are_read_at_their_first_occurrence before q word rest :
  q = "" \/ q = quote ->
  word <> "" ->
  (Text.allChars Text.isAppIdChar word = true ->
   endsRun Text.isAppIdChar rest = true ->
   occursWithin "--app-id " before ("--app-id " ++ q ++ word ++ rest)%string = false ->
   getAppId (before ++ "--app-id " ++ q ++ word ++ rest)%string = Some word)
  /\ (Text.allChars Text.isDigit word = true ->
      endsRun Text.isDigit rest = true ->
      occursWithin "--dapr-http-port " before
        ("--dapr-http-port " ++ q ++ word ++ rest)%string = false ->
      getHttpPort (before ++ "--dapr-http-port " ++ q ++ word ++ rest)%string
      = Text.parseInt word).
Proof.
  intros Hq Hne. split; intros Hall Hend Hocc.
  - unfold getAppId, appIdRegEx.
    rewrite (exec_first _ _ _ [word]); [reflexivity | | assumption].
    now apply flag_match_exact.
  - unfold getHttpPort, portRegEx.
    rewrite (exec_first _ _ _ [word]); [reflexivity | | assumption].
    now apply flag_match_exact.
Qed.

Lemma flags_are_read_at_their_first_occurrence_witness :
  getAppId ("daprd --app-id " ++ quote ++ "orders"
            ++ (quote ++ " --app-id billing"))%string = Some "orders"
  /\ getHttpPort ("daprd --dapr-http-port " ++ "" ++ "3600"
                  ++ " --dapr-http-port 3700")%string = Text.parseInt "3600".
Proof.
  split.
  - apply (proj1 (flags_are_read_at_their_first_occurrence "daprd " quote "orders"
                    (quote ++ " --app-id billing")%string
                    (or_intror eq_refl) ltac:(discriminate)));
      reflexivity.
  - apply (proj2 (flags_are_read_at_their_first_occurrence "daprd " "" "3600"
                    " --dapr-http-port 3700"
                    (or_introl eq_refl) ltac:(discriminate)));
      reflexivity.
Defined.

End FirstFlagExtras.

(** ** Further properties of the refresh cycle *)

Module RefreshExtras.

Import App ProcessProvider RefreshVocabulary.

Lemma call_joins p a s :
  soleInFlight p s -> isCall a = true ->
  exists s', step a s = Some s'
             /\ soleInFlight p s'
             /\ promises s' = promises s
             /\ applications s' = applications s
             /\ changes s' = changes s.
Proof.
  intros Hsole Hcall. pose proof Hsole as (Hcur & Hpend & Hothers & Hwait).
  assert (Hjoin : forall who,
            soleInFlight p (refreshApplications who s)
            /\ promises (refreshApplications who s) = promises s
            /\ applications (refreshApplications who s) = applications s
            /\ changes (refreshApplications who s) = changes s).
  { intros who. split; [now apply RefreshTheorems.soleInFlight_join|].
    unfold refreshApplications. rewrite Hcur. auto. }
  destruct a as [|refresh| | |]; try discriminate; simpl.
  - eexists. split; [reflexivity | apply Hjoin].
  - eexists. split; [reflexivity|]. unfold getApplications.
    destruct (negb _ || refresh); [apply Hjoin|]. simpl. auto.
Qed.

(** X15. Polls are coalesced: while one refresh is the only one
    outstanding, any number of calls of [refreshApplications] or
    [getApplications], in any order, start no further process listing; they
    leave the application list and the notification count alone, and the
    refresh stays the only one outstanding. *)
Theorem calls_join_the_refresh_in_flight p calls : forall s,
  soleInFlight p s ->
  Forall (fun a => isCall a = true) calls ->
  exists s', run calls s = Some s'
             /\ soleInFlight p s'
             /\ listings s' = listings s
             /\ applications s' = applications s
             /\ changes s' = changes s.
Proof.
  induction calls as [|a calls IH]; intros s Hsole Hcalls.
  - exists s. auto.
  - inversion_clear Hcalls as [|? ? Ha Hrest].
    destruct (call_joins p a s Hsole Ha) as (s1 & Hstep & Hsole1 & Hp1 & Ha1 & Hc1).
    destruct (IH s1 Hsole1 Hrest) as (s' & Hrun & Hsole' & Hl' & Ha' & Hc').
    exists s'. simpl. rewrite Hstep.
    split; [assumption|]. split; [assumption|].
    unfold listings in *. split; [congruence|]. split; congruence.
Qed.

Lemma calls_join_the_refresh_in_flight_witness :
  exists s', run [CallRefresh; CallGetApplications true; CallGetApplications false]
               (refreshApplications Timer init) = Some s'
             /\ soleInFlight 0 s'
             /\ listings s' = 1%nat
             /\ applications s' = None
             /\ changes s' = 0%nat.
Proof.
  apply (calls_join_the_refresh_in_flight 0
           [CallRefresh; CallGetApplications true; CallGetApplications false]
           (refreshApplications Timer init)).
  - split; [reflexivity|]. split; [reflexivity|].
    split; [|now repeat constructor].
    intros [|q] Hq; [congruence | discriminate].
  - repeat constructor.
Defined.

Lemma fulfilled_insert l : forall p st,
  l !! p = Some Pending ->
  length (List.filter isFulfilled (<[p := st]> l))
  = ((if isFulfilled st then 1 else 0) + length (List.filter isFulfilled l))%nat.
Proof.
  induction l as [|x l IH]; intros [|p] st; simpl; try discriminate.
  - intros [= ->]. simpl. now destruct (isFulfilled st).
  - intros Hp. specialize (IH p st Hp). destruct (isFulfilled x); simpl in *; lia.
Qed.

Lemma refreshApplications_consistent who s :
  consistent s -> consistent (refreshApplications who s).
Proof.
  intros (Hcur & Hwait & Hch & Happ). unfold refreshApplications, consistent, listings.
  destruct (currentRefresh s) as [p|] eqn:Hp; simpl.
  - split; [intros q [= <-]; now apply Hcur|].
    split; [|split; assumption].
    apply Forall_app. split; [assumption|].
    constructor; [|constructor]. simpl. now apply Hcur.
  - rewrite length_app. simpl.
    split; [intros q [= <-]; lia|].
    split; [|split; [|assumption]].
    + apply Forall_app. split.
      * eapply List.Forall_impl; [|exact Hwait]. unfold listings. simpl. lia.
      * constructor; [|constructor]. simpl. lia.
    + unfold fulfilled in *. simpl. rewrite List.filter_app. simpl.
      now rewrite app_nil_r.
Qed.

Lemma step_consistent a s s' :
  consistent s -> step a s = Some s' -> consistent s'.
Proof.
  intros Hs Hstep. destruct a as [|refresh|p processes|p|i]; simpl in Hstep.
  - injection Hstep as <-. now apply refreshApplications_consistent.
  - injection Hstep as <-. unfold getApplications.
    destruct (negb _ || refresh); [now apply refreshApplications_consistent|].
    exact Hs.
  - destruct (promises s !! p) as [[| |]|] eqn:Hp; try discriminate.
    injection Hstep as <-. destruct Hs as (Hcur & Hwait & Hch & Happ).
    unfold consistent, listings, fulfilled, onRefresh in *. simpl.
    rewrite length_insert, (fulfilled_insert _ _ _ Hp). simpl.
    repeat split; auto; try lia; eauto.
  - destruct (promises s !! p) as [[| |]|] eqn:Hp; try discriminate.
    injection Hstep as <-. destruct Hs as (Hcur & Hwait & Hch & Happ).
    unfold consistent, listings, fulfilled, reject in *. simpl.
    rewrite length_insert, (fulfilled_insert _ _ _ Hp). simpl.
    repeat split; auto; apply Happ.
  - destruct (suspended s !! i) as [[who q]|]; [|discriminate].
    destruct (promises s !! q) as [[| |]|]; try discriminate;
      simpl in Hstep; injection Hstep as <-;
      destruct Hs as (Hcur & Hwait & Hch & Happ);
      unfold consistent, listings, fulfilled in *; simpl.
    + split; [discriminate|]. split; [now apply Forall_delete|]. auto.
    + split; [assumption|]. split; [now apply Forall_delete|]. auto.
Qed.

(** X16. Whatever is called on a provider and however listings complete,
    fail and callers resume: the in-flight marker and every parked caller
    refer to a refresh that was started, the number of change notifications
    is the number of refreshes that were fulfilled (a failed refresh
    notifies nobody), and the application list is defined exactly when some
    refresh was fulfilled. *)
Theorem provider_stays_consistent actions : forall s,
  run actions init = Some s -> consistent s.
Proof.
  assert (Hgen : forall s0 s, consistent s0 -> run actions s0 = Some s -> consistent s).
  { induction actions as [|a actions IH]; intros s0 s Hs0; simpl.
    - now intros [= <-].
    - destruct (step a s0) as [s1|] eqn:Hstep; [|discriminate].
      apply IH. now apply (step_consistent a s0). }
  intros s. apply Hgen.
  unfold consistent, listings, fulfilled. simpl.
  split; [discriminate|]. split; [constructor|]. split; [reflexivity|].
  split; [intros [x Hx]; discriminate | lia].
Qed.

Lemma provider_stays_consistent_witness :
  consistent (onRefresh 0 [] (refreshApplications Timer init)).
Proof.
  apply (provider_stays_consistent [CallRefresh; ListingResolves 0 []]).
  reflexivity.
Defined.

End RefreshExtras.

Module RefreshCycleExtras.

Import App ProcessProvider RefreshVocabulary.

(** Parked callers of a fulfilled refresh resume one after the other. *)
Lemma drain_run p : forall ws s,
  suspended s = ws ->
  promises s !! p = Some Fulfilled ->
  Forall (fun w => snd w = p) ws ->
  exists s',
    run (replicate (length ws) (Resume 0)) s = Some s'
    /\ suspended s' = []
    /\ promises s' = promises s
    /\ applications s' = applications s
    /\ changes s' = changes s
    /\ outcomes s' = outcomes s ++ List.map (fun w => Completed (fst w)) ws
    /\ (ws <> [] -> currentRefresh s' = None).
Proof.
  induction ws as [|[who q] ws IH]; intros s Hws Hp Hall.
  - exists s. simpl. rewrite app_nil_r. repeat split; auto. congruence.
  - inversion_clear Hall as [|? ? Hq Hrest]. simpl in Hq. subst q.
    set (s1 := {| applications := applications s; currentRefresh := None;
                  promises := promises s; suspended := ws;
                  changes := changes s; outcomes := outcomes s ++ [Completed who] |}).
    assert (Hstep : step (Resume 0) s = Some s1)
      by (simpl; rewrite Hws; simpl; rewrite Hp; simpl; now rewrite Hws).
    destruct (IH s1 eq_refl Hp Hrest) as (s' & Hrun & Hs' & Hp' & Ha' & Hc' & Ho' & Hm').
    exists s'.
    change (run (replicate (length ((who, p) :: ws)) (Resume 0)) s)
      with (match step (Resume 0) s with
            | Some s0 => run (replicate (length ws) (Resume 0)) s0
            | None => None
            end).
    rewrite Hstep.
    split; [assumption|]. do 4 (split; [assumption|]).
    split; [rewrite Ho'; simpl; now rewrite <- app_assoc|].
    intros _. destruct ws as [|w ws]; [|now apply Hm'].
    simpl in Hrun. now injection Hrun as <-.
Qed.

(** X17. A refresh that succeeds runs a full cycle: when the listing of
    the only outstanding refresh completes and its parked callers have
    resumed, the application list is the one rebuilt from the listing, one
    change notification was fired, every parked caller completed, nobody is
    parked, the in-flight marker is clear and no listing was started
    meanwhile; the next call then starts a new listing and is again the only
    refresh outstanding. *)
Theorem successful_refresh_completes_its_callers p s processes :
  soleInFlight p s ->
  suspended s <> [] ->
  exists s',
    run (ListingResolves p processes :: drain s) s = Some s'
    /\ applications s' = Some (toApplications processes)
    /\ changes s' = S (changes s)
    /\ outcomes s' = outcomes s ++ List.map (fun w => Completed (fst w)) (suspended s)
    /\ suspended s' = []
    /\ currentRefresh s' = None
    /\ listings s' = listings s
    /\ listings (refreshApplications Timer s') = S (listings s)
    /\ soleInFlight (listings s) (refreshApplications Timer s').
Proof.
  intros (Hcur & Hpend & Hothers & Hwait) Hparked.
  assert (Hlt : (p < length (promises s))%nat) by (eapply lookup_lt_Some; eauto).
  destruct (drain_run p (suspended s) (onRefresh p processes s) eq_refl)
    as (s' & Hrun & Hs' & Hp' & Ha' & Hc' & Ho' & Hm'); [|assumption|].
  { simpl. now apply list_lookup_insert_eq. }
  specialize (Hm' Hparked).
  assert (Hlist : listings s' = listings s)
    by (unfold listings; rewrite Hp'; simpl; apply length_insert).
  assert (Hquiet : forall q, promises s' !! q <> Some Pending).
  { intros q. rewrite Hp'. simpl. destruct (decide (q = p)) as [->|Hne].
    - rewrite list_lookup_insert_eq by assumption. discriminate.
    - rewrite list_lookup_insert_ne by congruence. now apply Hothers. }
  exists s'. simpl. rewrite Hpend. unfold drain.
  split; [exact Hrun|]. do 6 (split; [assumption|]).
  pose proof (RefreshTheorems.soleInFlight_start Timer s' Hm' Hquiet Hs') as Hnext.
  fold (listings s') in Hnext. rewrite Hlist in Hnext.
  split; [|assumption].
  unfold refreshApplications, listings. rewrite Hm'. simpl.
  rewrite length_app. simpl. unfold listings in Hlist. lia.
Qed.

Lemma successful_refresh_completes_its_callers_witness :
  exists s',
    run (ListingResolves 0 [] :: drain (refreshApplications Timer init))
      (refreshApplications Timer init) = Some s'
    /\ applications s' = Some (toApplications [])
    /\ changes s' = 1%nat
    /\ outcomes s' = [] ++ List.map (fun w => Completed (fst w)) [(Timer, 0%nat)]
    /\ suspended s' = []
    /\ currentRefresh s' = None
    /\ listings s' = 1%nat
    /\ listings (refreshApplications Timer s') = 2%nat
    /\ soleInFlight 1 (refreshApplications Timer s').
Proof.
  apply (successful_refresh_completes_its_callers 0 (refreshApplications Timer init) []).
  - split; [reflexivity|]. split; [reflexivity|].
    split; [|now repeat constructor].
    intros [|q] Hq; [congruence | discriminate].
  - discriminate.
Defined.

End RefreshCycleExtras.

(** ** Further properties of the translation of services *)

Module TranslationExtras.

Import App MdnsProvider ProviderVocabulary TextVocabulary SplitFacts.

(** X11. A descriptor the mDNS-backed provider translates from a service
    has a non-empty id that contains no equals sign, has no process id, and
    its port is [parseInt] of a non-empty TXT value without an equals sign;
    a service without TXT entries translates to nothing. *)
Theorem translated_descriptor_shape service :
  (forall application,
     toApplication service = Some application ->
     appId application <> ""
     /\ Text.hasChar "="%char (appId application) = false
     /\ pid application = None
     /\ exists portText,
          portText <> "" /\ Text.hasChar "="%char portText = false
          /\ In (entry "httpPort" portText) (Client.text service)
          /\ In (entry "appId" (appId application)) (Client.text service)
          /\ httpPort application = Text.parseInt portText)
  /\ (Client.text service = [] -> toApplication service = None).
Proof.
  split.
  - unfold toApplication. intros application.
    destruct (textValue "appId" (parsed (Client.text service))) as [id|] eqn:Hid;
      [|discriminate].
    destruct (textValue "httpPort" (parsed (Client.text service))) as [portText|] eqn:Hport;
      [|simpl; rewrite andb_false_r; discriminate].
    simpl.
    destruct (Js.truthyString id) eqn:Hi; [|discriminate].
    destruct (Js.truthyString portText) eqn:Hp; [|discriminate].
    simpl. intros [= <-]. simpl.
    apply MdnsProviderTheorems.textValue_firstValue in Hid; [|reflexivity].
    apply MdnsProviderTheorems.textValue_firstValue in Hport; [|reflexivity].
    destruct Hid as (b1 & a1 & Ht1 & Hno1 & _).
    destruct Hport as (b2 & a2 & Ht2 & Hno2 & _).
    apply JsFacts.truthyString_true in Hi, Hp.
    split; [assumption|]. split; [assumption|]. split; [reflexivity|].
    exists portText. split; [assumption|]. split; [assumption|].
    split; [rewrite Ht2; apply in_or_app; right; now left|].
    split; [rewrite Ht1; apply in_or_app; right; now left | reflexivity].
  - intros Hnil. unfold toApplication. now rewrite Hnil.
Qed.

Lemma translated_descriptor_shape_witness :
  appId Samples.myapp <> "".
Proof.
  apply (proj1 (translated_descriptor_shape Samples.serviceA) Samples.myapp).
  reflexivity.
Defined.

Lemma join_cons sep piece pieces :
  pieces <> [] ->
  join sep (piece :: pieces) = (piece ++ String sep (join sep pieces))%string.
Proof. destruct pieces; [contradiction | reflexivity]. Qed.

(** X18. Splitting a string at a character and joining the pieces with
    that character gives the string back; no piece contains the character,
    and there is one piece more than the string has occurrences of it (so
    the empty string splits into one empty piece). *)
Theorem split_then_join sep s :
  join sep (Text.split sep s) = s
  /\ Forall (fun piece => Text.hasChar sep piece = false) (Text.split sep s)
  /\ length (Text.split sep s) = S (occurrences sep s).
Proof.
  induction s as [|c s (IHjoin & IHno & IHlen)]; simpl.
  - repeat split; auto.
  - destruct (Ascii.eqb c sep) eqn:Hc.
    + apply Ascii.eqb_eq in Hc. subst c.
      rewrite join_cons by apply split_nonempty. rewrite IHjoin.
      repeat split; auto. simpl. now rewrite IHlen.
    + destruct (Text.split sep s) as [|piece pieces] eqn:Hs;
        [now destruct (split_nonempty sep s)|].
      inversion_clear IHno as [|? ? Hpiece Hrest].
      split; [|split].
      * destruct pieces as [|piece' pieces]; simpl in *; now rewrite <- IHjoin.
      * constructor; [|assumption]. simpl. now rewrite Hc, Hpiece.
      * simpl in *. assumption.
Qed.

End TranslationExtras.

(** ** The client and the provider together *)

Module SessionExtras.

Import App MdnsProvider ProviderVocabulary.
Import StageFacts PhaseFacts UpFacts DownFacts ProviderExtras.

Lemma handleAll_app events1 events2 p :
  handleAll (events1 ++ events2) p = handleAll events2 (handleAll events1 p).
Proof. unfold handleAll. apply fold_left_app. Qed.

Lemma handle_changes p e : (changes p <= changes (handle p e))%nat.
Proof.
  destruct e as [service|service|key]; simpl.
  - rewrite MdnsProviderTheorems.onServiceUp_changes.
    destruct (toApplication service); lia.
  - unfold onServiceDown. destruct (toApplication service) as [a|]; simpl; [|lia].
    destruct (findIndex (sameAppId a) (applications p)); simpl; lia.
  - lia.
Qed.

Lemma handleAll_changes events : forall p,
  (changes p <= changes (handleAll events p))%nat.
Proof.
  unfold handleAll. induction events as [|e events IH]; intros p; simpl; [lia|].
  pose proof (handle_changes p e). specialize (IH (handle p e)). lia.
Qed.

Lemma onServiceUp_keeps_ids service p id :
  id ∈ appIds (applications p) -> id ∈ appIds (applications (onServiceUp service p)).
Proof.
  unfold appIds. rewrite onServiceUp_applications.
  destruct (toApplication service) as [app|]; [|auto].
  destruct (findIndex (sameAppId app) (applications p)) as [i|] eqn:Hi.
  - destruct (findIndex_Some _ _ _ Hi) as (x & Hx & Hpx & _).
    apply sameAppId_true in Hpx.
    rewrite list_fmap_insert, list_insert_id; [auto|].
    rewrite list_lookup_fmap, Hx. simpl. now rewrite Hpx.
  - rewrite fmap_app. intros Hid. apply elem_of_app. now left.
Qed.

Lemma onServiceUp_lists service p application :
  toApplication service = Some application ->
  appId application ∈ appIds (applications (onServiceUp service p)).
Proof.
  intros Happ. unfold appIds. rewrite onServiceUp_applications, Happ.
  destruct (findIndex (sameAppId application) (applications p)) as [i|] eqn:Hi.
  - destruct (findIndex_Some _ _ _ Hi) as (x & Hx & _).
    apply list_elem_of_fmap. exists application. split; [reflexivity|].
    apply list_elem_of_insert. eapply lookup_lt_Some; eauto.
  - rewrite fmap_app. apply elem_of_app. right. simpl. apply list_elem_of_here.
Qed.

Lemma ups_keep_ids id events : forall p,
  Forall (fun e => Client.isUp e = true) events ->
  id ∈ appIds (applications p) -> id ∈ appIds (applications (handleAll events p)).
Proof.
  unfold handleAll. induction events as [|e events IH]; intros p Hup Hid; [assumption|].
  inversion_clear Hup as [|? ? He Hrest]. simpl. apply IH; [assumption|].
  destruct e; [|discriminate|discriminate]. simpl. now apply onServiceUp_keeps_ids.
Qed.

Lemma onServiceDown_prefix service p :
  exists dropped, applications p = applications (onServiceDown service p) ++ dropped.
Proof.
  rewrite MdnsProviderTheorems.onServiceDown_applications.
  destruct (toApplication service) as [app|]; [|exists []; now rewrite app_nil_r].
  destruct (findIndex (sameAppId app) (applications p)) as [i|];
    [|exists []; now rewrite app_nil_r].
  exists (drop i (applications p)). now rewrite take_drop.
Qed.

Lemma onServiceDown_removes service p application :
  toApplication service = Some application ->
  Forall (fun a => appId a <> appId application)
    (applications (onServiceDown service p)).
Proof.
  intros Happ. rewrite MdnsProviderTheorems.onServiceDown_applications, Happ.
  destruct (findIndex (sameAppId application) (applications p)) as [i|] eqn:Hi.
  - destruct (findIndex_Some _ _ _ Hi) as (x & _ & _ & Hbefore).
    apply List.Forall_forall. intros a Ha.
    apply list_elem_of_In, elem_of_take in Ha as (j & Hj & Hlt).
    apply sameAppId_false. eauto.
  - apply findIndex_None in Hi.
    eapply List.Forall_impl; [|exact Hi]. intros a. apply sameAppId_false.
Qed.

Lemma downs_keep_absent (P : DaprApplication -> Prop) events : forall p,
  Forall (fun e => Client.isDown e = true) events ->
  Forall P (applications p) -> Forall P (applications (handleAll events p)).
Proof.
  unfold handleAll. induction events as [|e events IH]; intros p Hdown HP; [assumption|].
  inversion_clear Hdown as [|? ? He Hrest]. simpl. apply IH; [assumption|].
  destruct e as [|service|key]; [discriminate| |assumption]. simpl.
  destruct (onServiceDown_prefix service p) as [dropped Heq].
  rewrite Heq in HP. now apply Forall_app in HP as [HP _].
Qed.

(** X19. End to end, for any client and provider state: when the client
    processes a packet that carries no goodbye, that announces a name which
    is not registered and which a plain object does not inherit, and
    resolves it, and the resolved record translates to an application, then
    after the packet the client has the record registered, the provider
    lists an application with that id, and at least one change notification
    was fired. *)
Theorem announced_service_is_listed c p packet n application :
  (forall m, ~ Client.downCandidate (Client.type c) packet m) ->
  Client.upCandidate (Client.type c) packet n ->
  Client.knownServices c !! n = None ->
  Js.inherited n = false ->
  Client.fqdn (Client.candidate packet n) <> "" ->
  toApplication (Client.candidate packet n) = Some application ->
  Client.knownServices (fst (deliver packet (c, p))) !! n
  = Some (Client.candidate packet n)
  /\ appId application ∈ appIds (applications (snd (deliver packet (c, p))))
  /\ (changes p < changes (snd (deliver packet (c, p))))%nat.
Proof.
  intros Hnodown Hup Hnew Hown Hfqdn Happ. unfold deliver, Client.receive. simpl.
  assert (Hdowns : Client.pointerTargets false (Client.type c) packet = []).
  { destruct (Client.pointerTargets false (Client.type c) packet) as [|m l] eqn:Hl;
      [reflexivity|].
    destruct (Hnodown m). apply pointerTargets_down. rewrite Hl. now left. }
  rewrite onResponse_phases. simpl. rewrite Hdowns, downPhase_nil. simpl.
  rewrite app_nil_r.
  set (names := Client.pointerTargets true (Client.type c) packet).
  assert (Hmem : bool_decide (n ∈ names) = true) by now apply ClientTheorems.mem_up.
  assert (Hres : Client.resolvable packet n = true)
    by (apply resolvable_true; auto).
  split; [now rewrite upPhase_lookup, Hnew, Hmem, Hres|].
  assert (Hin : In (Client.ServiceUp (Client.candidate packet n))
                  (snd (Client.upPhase packet names (Client.knownServices c)))).
  { apply (proj1 (filter_In (Client.isUpFor n) _ _)).
    rewrite upPhase_filter, Hmem, Hres.
    rewrite bool_decide_eq_true_2 by assumption. now left. }
  pose proof (upPhase_all_up packet names (Client.knownServices c)) as Hall.
  apply in_split in Hin as (ev1 & ev2 & Hsplit). rewrite Hsplit in *.
  apply Forall_app in Hall as [_ Hall].
  inversion_clear Hall as [|? ? _ Hall2].
  fold (handleAll (ev1 ++ Client.ServiceUp (Client.candidate packet n) :: ev2) p).
  rewrite handleAll_app.
  change (handleAll (Client.ServiceUp (Client.candidate packet n) :: ev2)
            (handleAll ev1 p))
    with (handleAll ev2 (onServiceUp (Client.candidate packet n) (handleAll ev1 p))).
  split.
  - apply ups_keep_ids; [assumption|]. now apply onServiceUp_lists.
  - pose proof (handleAll_changes ev1 p).
    pose proof (handleAll_changes ev2
                  (onServiceUp (Client.candidate packet n) (handleAll ev1 p))).
    pose proof (MdnsProviderTheorems.onServiceUp_changes
                  (Client.candidate packet n) (handleAll ev1 p)) as Hc.
    rewrite Happ in Hc. lia.
Qed.

Lemma announced_service_is_listed_witness :
  Client.knownServices
    (fst (deliver Samples.announce
            (Client.start Samples.daprType Client.init, Samples.threeApplications)))
    !! "svcA"
  = Some (Client.candidate Samples.announce "svcA")
  /\ appId Samples.myapp
     ∈ appIds (applications
                 (snd (deliver Samples.announce
                         (Client.start Samples.daprType Client.init,
                          Samples.threeApplications))))
  /\ (changes Samples.threeApplications
      < changes (snd (deliver Samples.announce
                        (Client.start Samples.daprType Client.init,
                         Samples.threeApplications))))%nat.
Proof.
  apply (announced_service_is_listed (Client.start Samples.daprType Client.init)
           Samples.threeApplications Samples.announce "svcA" Samples.myapp).
  - intros m (a & Ha & _ & Httl & _). simpl in Ha.
    destruct Ha as [<-|[<-|[<-|[<-|[]]]]]; discriminate.
  - exists Samples.pointerUp. simpl. repeat split; auto; discriminate.
  - reflexivity.
  - reflexivity.
  - discriminate.
  - reflexivity.
Defined.

(** X20. End to end, for any client and provider state: when a packet says
    goodbye to a registered name whose record translates to an application,
    then after the packet the name is not registered, the provider lists no
    application with that id, and at least one change notification was
    fired -- whatever else the packet announces or withdraws. *)
Theorem withdrawn_service_is_unlisted c p packet n old application :
  Client.knownServices c !! n = Some old ->
  Client.downCandidate (Client.type c) packet n ->
  toApplication old = Some application ->
  Client.knownServices (fst (deliver packet (c, p))) !! n = None
  /\ Forall (fun a => appId a <> appId application)
       (applications (snd (deliver packet (c, p))))
  /\ (changes p < changes (snd (deliver packet (c, p))))%nat.
Proof.
  intros Hold Hdown Happ. unfold deliver, Client.receive. simpl.
  split.
  - rewrite ClientTheorems.onResponse_lookup.
    now rewrite (proj2 (ClientTheorems.mem_down _ _ _) Hdown).
  - rewrite onResponse_phases. simpl.
    set (up := Client.upPhase packet
                 (Client.pointerTargets true (Client.type c) packet)
                 (Client.knownServices c)).
    set (downs := Client.pointerTargets false (Client.type c) packet).
    assert (Hin : In (Client.ServiceDown old) (snd (Client.downPhase downs (fst up)))).
    { apply (downPhase_fires _ _ n); [now apply pointerTargets_down|].
      unfold up. now rewrite upPhase_lookup, Hold. }
    pose proof (downPhase_all_down downs (fst up)) as Hall.
    apply in_split in Hin as (ev1 & ev2 & Hsplit). rewrite Hsplit in *.
    apply Forall_app in Hall as [_ Hall].
    inversion_clear Hall as [|? ? _ Hall2].
    fold (handleAll (snd up ++ ev1 ++ Client.ServiceDown old :: ev2) p).
    rewrite !handleAll_app.
    set (p1 := handleAll ev1 (handleAll (snd up) p)).
    change (handleAll (Client.ServiceDown old :: ev2) p1)
      with (handleAll ev2 (onServiceDown old p1)).
    split.
    + apply downs_keep_absent; [assumption|]. now apply onServiceDown_removes.
    + pose proof (handleAll_changes (snd up) p).
      pose proof (handleAll_changes ev1 (handleAll (snd up) p)).
      pose proof (handleAll_changes ev2 (onServiceDown old p1)).
      assert (changes p1 < changes (onServiceDown old p1))%nat.
      { unfold onServiceDown. rewrite Happ.
        destruct (findIndex _ _); simpl; lia. }
      fold p1 in H0. lia.
Qed.

Lemma withdrawn_service_is_unlisted_witness :
  Client.knownServices
    (fst (deliver Samples.goodbye
            ({| Client.type := Some Samples.daprType;
                Client.knownServices := Samples.registryOld;
                Client.listeners := 1 |}, Samples.threeApplications)))
    !! "svcA" = None
  /\ Forall (fun a => appId a <> appId Samples.myapp)
       (applications
          (snd (deliver Samples.goodbye
                  ({| Client.type := Some Samples.daprType;
                      Client.knownServices := Samples.registryOld;
                      Client.listeners := 1 |}, Samples.threeApplications))))
  /\ (changes Samples.threeApplications
      < changes
          (snd (deliver Samples.goodbye
                  ({| Client.type := Some Samples.daprType;
                      Client.knownServices := Samples.registryOld;
                      Client.listeners := 1 |}, Samples.threeApplications))))%nat.
Proof.
  apply (withdrawn_service_is_unlisted
           {| Client.type := Some Samples.daprType;
              Client.knownServices := Samples.registryOld;
              Client.listeners := 1 |}
           Samples.threeApplications Samples.goodbye "svcA" Samples.serviceOld
           Samples.myapp).
  - reflexivity.
  - exists Samples.pointerDown. simpl. repeat split; auto.
  - reflexivity.
Defined.

End SessionExtras.

(** ** The lazy start of the mDNS-backed provider *)

Module MdnsSessionExtras.

Import App MdnsSession.

(** Once there is a client, no action creates or starts another, and the
    client keeps its type and its single listener; only the settling of the
    start ends the suspension of the first call. *)
Lemma step_with_client a s client :
  mdnsClient s = Some client ->
  Client.type client = Some serviceType ->
  Client.listeners client = 1%nat ->
  clientsCreated (fst (step a s)) = clientsCreated s
  /\ queriesSent (fst (step a s)) = queriesSent s
  /\ (isSettle a = false -> awaitingStart (fst (step a s)) = awaitingStart s)
  /\ exists client', mdnsClient (fst (step a s)) = Some client'
                     /\ Client.type client' = Some serviceType
                     /\ Client.listeners client' = 1%nat.
Proof.
  intros Hc Ht Hl. destruct a as [|queryOk|packet]; simpl.
  - unfold getApplications. rewrite Hc. simpl. repeat split; eauto.
  - unfold startSettles. destruct (awaitingStart s); simpl;
      (split; [reflexivity|]); (split; [reflexivity|]);
      (split; [discriminate|]); eauto.
  - unfold receive. rewrite Hc. simpl. repeat split; eauto.
Qed.

Lemma run_with_client actions : forall s client,
  mdnsClient s = Some client ->
  Client.type client = Some serviceType ->
  Client.listeners client = 1%nat ->
  clientsCreated (run actions s) = clientsCreated s
  /\ queriesSent (run actions s) = queriesSent s
  /\ (Forall (fun a => isSettle a = false) actions ->
      awaitingStart (run actions s) = awaitingStart s)
  /\ exists client', mdnsClient (run actions s) = Some client'
                     /\ Client.type client' = Some serviceType
                     /\ Client.listeners client' = 1%nat.
Proof.
  unfold run. induction actions as [|a actions IH]; intros s client Hc Ht Hl.
  - simpl. repeat split; eauto.
  - simpl.
    destruct (step_with_client a s client Hc Ht Hl)
      as (Hcreated & Hsent & Hawait & client' & Hc' & Ht' & Hl').
    destruct (IH _ client' Hc' Ht' Hl') as (H1 & H2 & H3 & H4).
    split; [congruence|]. split; [congruence|]. split; [|exact H4].
    intros Hall. inversion_clear Hall as [|? ? Ha Hrest].
    rewrite (H3 Hrest). now apply Hawait.
Qed.

Lemma packets_before_the_first_call packets :
  run (List.map Packet packets) init = init.
Proof. unfold run. induction packets as [|packet l IH]; simpl; auto. Qed.

(** X21. The mDNS-backed provider creates and starts its client exactly
    once, on the first call of [getApplications], which suspends: whatever
    calls and packets follow and however the start settles, no further
    client is created and no further query is sent (a failed start is never
    retried), and the one client stays bound to [_dapr._tcp.local] with a
    single listener. Every later call returns at once and resolves with the
    provider's list as it is at that call. The first call settles when the
    start does: it resolves with the list as it is then, packets handled
    meanwhile included, or rejects if the query could not be sent. Packets
    that arrive before the first call are ignored. *)
Theorem client_is_started_once actions :
  let s := run (Call :: actions) init in
  snd (step Call init) = None
  /\ clientsCreated s = 1%nat
  /\ queriesSent s = 1%nat
  /\ (exists client, mdnsClient s = Some client
                     /\ Client.type client = Some serviceType
                     /\ Client.listeners client = 1%nat)
  /\ step Call s = (s, Some (Resolved (MdnsProvider.applications (provider s))))
  /\ (Forall (fun a => isSettle a = false) actions ->
      forall queryOk,
        snd (step (StartSettles queryOk) s)
        = Some (if queryOk
                then Resolved (MdnsProvider.applications (provider s))
                else Rejected)
        /\ forall queryOk',
             snd (step (StartSettles queryOk')
                    (fst (step (StartSettles queryOk) s))) = None)
  /\ forall packets, run (List.map Packet packets) init = init.
Proof.
  cbv zeta. split; [reflexivity|].
  change (run (Call :: actions) init) with (run actions (fst (step Call init))).
  set (s1 := fst (step Call init)).
  destruct (run_with_client actions s1 _ eq_refl eq_refl eq_refl)
    as (Hcreated & Hsent & Hawait & client & Hc & Ht & Hl).
  split; [exact Hcreated|]. split; [exact Hsent|].
  split; [eauto|].
  split; [cbn [step]; unfold getApplications; now rewrite Hc|].
  split; [|exact packets_before_the_first_call].
  intros Hall queryOk. specialize (Hawait Hall).
  cbn [step]. unfold startSettles. rewrite Hawait. simpl. split; reflexivity.
Qed.

Lemma client_is_started_once_witness :
  let s := run [Call; Packet Samples.announce; Call] init in
  step Call s = (s, Some (Resolved [Samples.myapp]))
  /\ snd (step (StartSettles true) s) = Some (Resolved [Samples.myapp])
  /\ snd (step (StartSettles false) s) = Some Rejected.
Proof.
  pose proof (client_is_started_once [Packet Samples.announce; Call])
    as (_ & _ & _ & _ & Hcall & Hsettle & _).
  split; [exact Hcall|].
  split; apply Hsettle; repeat constructor.
Defined.

End MdnsSessionExtras.
